(** * The live-audio pipeline of J.A.R.V.I.S.

    A shallow embedding of [utils/helpers.ts] (binary/text codec, PCM sample
    conversion, WAV container serializer) and of the [LiveConvoPanel]
    component (capture callback, playback scheduler, session lifecycle),
    followed by the properties established about them.

    Conventions of the embedding.
    - A [Uint8Array] is a [list byte]; a JavaScript string whose code units
      are all below 256 (binary strings, base64 text, the RIFF tags) is a
      [string].
    - A finite JavaScript number is a rational.  What the pipeline does to
      an audio sample (scaling by 2^15, dividing by 2^15) is exact in binary
      floating point, so the rational is the value the program holds.  Clock
      readings, durations and their sums are exact rationals too: the
      rounding of doubles is left out of the scheduler.
    - An operation that can throw returns a [completion].
    - Typed arrays are read and written in little-endian byte order, the
      byte order of the platforms the application runs on. *)

From Stdlib Require Import ZArith QArith Qabs Qround Lia Lqa Strings.Byte Ascii String List.
From stdpp Require Import base list strings.
Import ListNotations.

(** ** The JavaScript platform *)

Module JS.

Inductive exn : Type :=
| RangeError
| NotSupportedError
| InvalidCharacterError.

Inductive completion (A : Type) : Type :=
| Normal (a : A)
| Throw (e : exn).
Arguments Normal {A} a.
Arguments Throw {A} e.

Definition bind {A B} (c : completion A) (k : A -> completion B) : completion B :=
  match c with
  | Normal a => k a
  | Throw e => Throw e
  end.

#[export] Instance completion_ret : MRet completion := @Normal.
#[export] Instance completion_bind : MBind completion := fun A B k c => bind c k.

(** [for (let i = 0; i < n; i++) body], threading the loop's variables. *)
Definition for_loop {S : Type} (n : nat) (body : nat -> S -> S) (s : S) : S :=
  fold_left (fun acc i => body i acc) (seq 0 n) s.

(** The same loop when the body can throw. *)
Definition for_loop_c {S : Type} (n : nat) (body : nat -> S -> completion S)
    (s : S) : completion S :=
  fold_left (fun acc i => bind acc (body i)) (seq 0 n) (Normal s).

(** *** Numbers *)

Open Scope Z_scope.

(** A JavaScript number: a finite value, [NaN] or an infinity. *)
Inductive number : Type :=
| Fin (q : Q)
| NaN
| PosInf
| NegInf.

(** The integer part, rounding toward zero. *)
Definition truncate (q : Q) : Z := Z.quot (Qnum q) (Zpos (Qden q)).

(** [x * k] and [x / k] for a finite constant [k > 0]. *)
Definition number_mul (x : number) (k : Q) : number :=
  match x with
  | Fin q => Fin (q * k)
  | _ => x
  end.

Definition number_div (x : number) (k : Q) : number :=
  match x with
  | Fin q => Fin (q / k)
  | _ => x
  end.

(** [a / b] on two array lengths. *)
Definition length_div (a b : nat) : number :=
  match b, a with
  | O, O => NaN
  | O, _ => PosInf
  | _, _ => Fin (Z.of_nat a # Pos.of_nat b)
  end.

Definition ToUint8 (x : number) : Z :=
  match x with
  | Fin q => truncate q mod 256
  | _ => 0
  end.

Definition ToUint32 (x : number) : Z :=
  match x with
  | Fin q => truncate q mod 4294967296
  | _ => 0
  end.

Definition ToUint16 (x : number) : Z :=
  match x with
  | Fin q => truncate q mod 65536
  | _ => 0
  end.

Definition ToInt16 (x : number) : Z :=
  let m := ToUint16 x in
  if 32768 <=? m then m - 65536 else m.

(** [Math.max] on two finite numbers. *)
Definition Math_max (a b : Q) : Q := if Qle_bool a b then b else a.

(** The number of iterations of [for (let i = 0; i < x; i++)].  The loop
    does not end for [PosInf]; no caller reaches it with that bound. *)
Definition iterations (x : number) : nat :=
  match x with
  | Fin q => Z.to_nat (Qceiling q)
  | _ => O
  end.

Close Scope Z_scope.

(** *** Bytes and typed arrays *)

Definition byte_of_N (n : N) : byte :=
  match Byte.of_N (n mod 256) with
  | Some b => b
  | None => x00
  end.

Definition byte_of_Z (z : Z) : byte := byte_of_N (Z.to_N (z mod 256)).

(** [new Uint8Array(n)] is zero-filled. *)
Definition Uint8Array_new (n : nat) : list byte := replicate n x00.

Open Scope Z_scope.

(** The two bytes of a 16-bit and the four bytes of a 32-bit integer, least
    significant first. *)
Definition le16 (v : Z) : list byte := [byte_of_Z v; byte_of_Z (v / 256)].

Definition le32 (v : Z) : list byte :=
  [byte_of_Z v; byte_of_Z (v / 256); byte_of_Z (v / 65536); byte_of_Z (v / 16777216)].

Definition int16_of_bytes (lo hi : byte) : Z :=
  let u := Z.of_N (Byte.to_N lo) + 256 * Z.of_N (Byte.to_N hi) in
  if 32768 <=? u then u - 65536 else u.

(** [new Int16Array(float32Array)] converts element by element with
    [ToInt16]; [new Uint8Array(int16Array.buffer)] exposes its bytes. *)
Definition Int16Array_of_numbers (a : list number) : list Z := map ToInt16 a.

Definition Int16Array_bytes (a : list Z) : list byte := flat_map le16 a.

Fixpoint int16_elements (buf : list byte) : list Z :=
  match buf with
  | lo :: hi :: r => int16_of_bytes lo hi :: int16_elements r
  | _ => []
  end.

(** [new Int16Array(buffer)] throws unless the byte length is even. *)
Definition Int16Array_of_buffer (buf : list byte) : completion (list Z) :=
  if Nat.even (length buf) then Normal (int16_elements buf) else Throw RangeError.

(** *** DataView *)

Definition setUint8 (view : list byte) (offset : nat) (value : number) : completion (list byte) :=
  if (offset + 1 <=? length view)%nat
  then Normal (<[offset := byte_of_Z (ToUint8 value)]> view)
  else Throw RangeError.

(** [view.setUint16(offset, value, true)] *)
Definition setUint16 (view : list byte) (offset : nat) (value : number) : completion (list byte) :=
  if (offset + 2 <=? length view)%nat
  then
    let v := ToUint16 value in
    Normal (<[(offset + 1)%nat := byte_of_Z (v / 256)]> (<[offset := byte_of_Z v]> view))
  else Throw RangeError.

(** [view.setUint32(offset, value, true)] *)
Definition setUint32 (view : list byte) (offset : nat) (value : number) : completion (list byte) :=
  if (offset + 4 <=? length view)%nat
  then
    let v := ToUint32 value in
    Normal (<[(offset + 3)%nat := byte_of_Z (v / 16777216)]>
           (<[(offset + 2)%nat := byte_of_Z (v / 65536)]>
           (<[(offset + 1)%nat := byte_of_Z (v / 256)]>
           (<[offset := byte_of_Z v]> view))))
  else Throw RangeError.

(** *** Web Audio *)

Record AudioBuffer : Type := {
  buf_sampleRate : Z;
  buf_length : nat;
  buf_channels : list (list number)
}.

(** [buffer.duration], in seconds. *)
Definition duration (b : AudioBuffer) : Q :=
  Z.of_nat (buf_length b) # Z.to_pos (buf_sampleRate b).

(** [ctx.createBuffer(numberOfChannels, length, sampleRate)].  The length is
    an [unsigned long]; an argument outside its nominal range is a
    [NotSupportedError].  The ranges are those every implementation
    supports: 1 to 32 channels, at least one frame, 8000 to 96000 Hz. *)
Definition createBuffer (numberOfChannels : nat) (length : number) (sampleRate : Z)
    : completion AudioBuffer :=
  let len := Z.to_nat (ToUint32 length) in
  if (1 <=? numberOfChannels)%nat && (numberOfChannels <=? 32)%nat && (1 <=? len)%nat
     && (8000 <=? sampleRate) && (sampleRate <=? 96000)
  then Normal {| buf_sampleRate := sampleRate;
                 buf_length := len;
                 buf_channels := replicate numberOfChannels (replicate len (Fin 0)) |}
  else Throw NotSupportedError.

(** [buffer.getChannelData(channel)[i] = v]; a write past the end of a typed
    array is ignored. *)
Definition setChannelData (b : AudioBuffer) (channel i : nat) (v : number) : AudioBuffer :=
  {| buf_sampleRate := buf_sampleRate b;
     buf_length := buf_length b;
     buf_channels :=
       match buf_channels b !! channel with
       | Some channelData => <[channel := <[i := v]> channelData]> (buf_channels b)
       | None => buf_channels b
       end |}.

Close Scope Z_scope.

(** *** Strings *)

(** [String.fromCharCode(bytes[i])]; an absent element is [undefined], whose
    code unit is 0. *)
Definition fromCharCode (v : option byte) : string :=
  match v with
  | Some b => String (ascii_of_byte b) EmptyString
  | None => String (ascii_of_byte x00) EmptyString
  end.

(** [s.charCodeAt(i)]; out of range it is [NaN]. *)
Definition charCodeAt (s : string) (i : nat) : number :=
  match String.get i s with
  | Some c => Fin (inject_Z (Z.of_N (N_of_ascii c)))
  | None => NaN
  end.

(** *** [btoa] and [atob]

    The host functions, after the WHATWG Infra standard (forgiving-base64
    encode and decode). *)

Open Scope N_scope.

Definition b64_alphabet : string :=
  "ABCDEFGHIJKLMNOPQRSTUVWXYZabcdefghijklmnopqrstuvwxyz0123456789+/".

Definition pad_char : ascii := "="%char.

Definition b64_char (n : N) : ascii :=
  match String.get (N.to_nat n) b64_alphabet with
  | Some c => c
  | None => pad_char
  end.

Definition b64_value (c : ascii) : option N :=
  let n := N_of_ascii c in
  if (65 <=? n) && (n <=? 90) then Some (n - 65)
  else if (97 <=? n) && (n <=? 122) then Some (n - 71)
  else if (48 <=? n) && (n <=? 57) then Some (n + 4)
  else if n =? 43 then Some 62
  else if n =? 47 then Some 63
  else None.

(** The 6-bit groups of the octet stream, the last one zero-filled. *)
Fixpoint sextets (l : list ascii) : list N :=
  match l with
  | a :: b :: c :: r =>
      let n := N_of_ascii a * 65536 + N_of_ascii b * 256 + N_of_ascii c in
      n / 262144 :: n / 4096 mod 64 :: n / 64 mod 64 :: n mod 64 :: sextets r
  | [a; b] =>
      let n := N_of_ascii a * 65536 + N_of_ascii b * 256 in
      [n / 262144; n / 4096 mod 64; n / 64 mod 64]
  | [a] =>
      let n := N_of_ascii a * 65536 in
      [n / 262144; n / 4096 mod 64]
  | [] => []
  end.

Definition padding (len : nat) : list ascii :=
  match (len mod 3)%nat with
  | 1%nat => [pad_char; pad_char]
  | 2%nat => [pad_char]
  | _ => []
  end.

(** Every code unit of a [string] is below 256, so [btoa] cannot throw. *)
Definition btoa (s : string) : string :=
  let l := list_ascii_of_string s in
  string_of_list_ascii (map b64_char (sextets l) ++ padding (length l)).

Definition is_ascii_whitespace (c : ascii) : bool :=
  let n := N_of_ascii c in
  (n =? 9) || (n =? 10) || (n =? 12) || (n =? 13) || (n =? 32).

(** On the reversed text: drop one or two trailing [=]. *)
Definition drop_padding_rev (r : list ascii) : list ascii :=
  match r with
  | c1 :: r1 =>
      if Ascii.eqb c1 pad_char then
        match r1 with
        | c2 :: r2 => if Ascii.eqb c2 pad_char then r2 else r1
        | [] => r1
        end
      else r
  | [] => []
  end.

Definition strip_padding (l : list ascii) : list ascii :=
  if (length l mod 4 =? 0)%nat then rev (drop_padding_rev (rev l)) else l.

(** Groups of four sextets give three octets; a rest of two or three gives
    one or two octets and drops the low bits; a rest of one is an error. *)
Fixpoint octets (l : list N) : option (list ascii) :=
  match l with
  | s1 :: s2 :: s3 :: s4 :: r =>
      let n := ((s1 * 64 + s2) * 64 + s3) * 64 + s4 in
      match octets r with
      | Some out =>
          Some (ascii_of_N (n / 65536) :: ascii_of_N (n / 256 mod 256)
                  :: ascii_of_N (n mod 256) :: out)
      | None => None
      end
  | [s1; s2; s3] =>
      let n := ((s1 * 64 + s2) * 64 + s3) / 4 in
      Some [ascii_of_N (n / 256); ascii_of_N (n mod 256)]
  | [s1; s2] => Some [ascii_of_N ((s1 * 64 + s2) / 16)]
  | [_] => None
  | [] => Some []
  end.

Definition atob (s : string) : completion string :=
  let data := List.filter (fun c => negb (is_ascii_whitespace c)) (list_ascii_of_string s) in
  let data := strip_padding data in
  match mapM b64_value data with
  | Some vs =>
      match octets vs with
      | Some out => Normal (string_of_list_ascii out)
      | None => Throw InvalidCharacterError
      end
  | None => Throw InvalidCharacterError
  end.

Close Scope N_scope.

End JS.

(** ** utils/helpers.ts *)

Module Helpers.
Import JS.

Definition encode (bytes : list byte) : string :=
  let len := length bytes in
  let binary :=
    for_loop len (fun i binary => (binary ++ fromCharCode (bytes !! i))%string) EmptyString in
  btoa binary.

Definition decode (base64 : string) : completion (list byte) :=
  binaryString ← atob base64;
  let len := String.length binaryString in
  let bytes := Uint8Array_new len in
  Normal
    (for_loop len
       (fun i bytes => <[i := byte_of_Z (ToUint8 (charCodeAt binaryString i))]> bytes)
       bytes).

(** [dataInt16[k] / 32768.0]; an absent element is [undefined] and the
    quotient [NaN]. *)
Definition sample_of_int16 (v : option Z) : number :=
  match v with
  | Some z => number_div (Fin (inject_Z z)) 32768
  | None => NaN
  end.

(** [data] owns its buffer, as every array made by [decode] does. *)
Definition decodeAudioData (data : list byte) (sampleRate : Z) (numChannels : nat)
    : completion AudioBuffer :=
  dataInt16 ← Int16Array_of_buffer data;
  let frameCount := length_div (length dataInt16) numChannels in
  buffer ← createBuffer numChannels frameCount sampleRate;
  Normal
    (for_loop numChannels (fun channel buffer =>
       for_loop (iterations frameCount) (fun i buffer =>
         setChannelData buffer channel i
           (sample_of_int16 (dataInt16 !! (i * numChannels + channel)%nat)))
         buffer)
       buffer).

Definition writeString (view : list byte) (offset : nat) (str : string)
    : completion (list byte) :=
  for_loop_c (String.length str) (fun i view =>
    setUint8 view (offset + i) (charCodeAt str i))
    view.

Record Blob : Type := {
  blob_bytes : list byte;
  blob_type : string
}.

(** An integer as a number. *)
Definition int (z : Z) : number := Fin (inject_Z z).

(** The parameters are taken to be integers, and the products small enough
    to be exact doubles. *)
Definition createWavBlob (pcmData : list byte) (sampleRate numChannels bitsPerSample : Z)
    : completion Blob :=
  let dataSize := Z.of_nat (length pcmData) in
  let view := Uint8Array_new (44 + length pcmData) in
  (* RIFF chunk descriptor *)
  view ← writeString view 0 "RIFF";
  view ← setUint32 view 4 (int (36 + dataSize));
  view ← writeString view 8 "WAVE";
  (* "fmt " sub-chunk *)
  view ← writeString view 12 "fmt ";
  view ← setUint32 view 16 (int 16);
  view ← setUint16 view 20 (int 1);
  view ← setUint16 view 22 (int numChannels);
  view ← setUint32 view 24 (int sampleRate);
  let byteRate := Fin (inject_Z sampleRate * inject_Z numChannels * (inject_Z bitsPerSample / 8)) in
  view ← setUint32 view 28 byteRate;
  let blockAlign := Fin (inject_Z numChannels * (inject_Z bitsPerSample / 8)) in
  view ← setUint16 view 32 blockAlign;
  view ← setUint16 view 34 (int bitsPerSample);
  (* "data" sub-chunk *)
  view ← writeString view 36 "data";
  view ← setUint32 view 40 (int dataSize);
  (* Write PCM data from the Uint8Array *)
  let pcmAsUint8 := pcmData in
  view ← for_loop_c (length pcmAsUint8) (fun i view =>
            setUint8 view (44 + i)
              (match pcmAsUint8 !! i with
               | Some b => int (Z.of_N (Byte.to_N b))
               | None => NaN
               end))
          view;
  Normal {| blob_bytes := view; blob_type := "audio/wav" |}.

End Helpers.


(** ** components/panels/LiveConvoPanel.tsx *)

Module LiveConvoPanel.
Import JS Helpers.

Record Turn : Type := {
  user : string;
  model : string
}.

Definition emptyTurn : Turn := {| user := EmptyString; model := EmptyString |}.

Record AudioContext : Type := {
  ctx_id : nat;
  ctx_sampleRate : Z
}.

(** A session carries what its callbacks closed over when
    [startConversation] built them: the [currentTurn] of the render that
    handled the click, and the microphone stream. *)
Record LiveSession : Type := {
  session_id : nat;
  closure_currentTurn : Turn;
  closure_stream : nat
}.

(** The calls the component makes on platform objects. *)
Inductive call : Type :=
| GetUserMedia
| Connect (session : nat)
| SendRealtimeInput (session : nat) (data mimeType : string)
| SessionClose (session : nat)
| TrackStop (stream : nat)
| Disconnect (node : nat)
| ContextClose (ctx : nat)
| SourceStart (source : nat) (when : Q) (buffer : AudioBuffer)
| SourceStop (source : nat).

(** The parts of a [LiveServerMessage] the component reads; [audioData] is
    [serverContent.modelTurn.parts[0].inlineData.data]. *)
Record LiveServerMessage : Type := {
  inputTranscription : option string;
  outputTranscription : option string;
  turnComplete : bool;
  audioData : option string;
  interrupted : bool
}.

(** The component: its React state, its refs, the calls made so far. *)
Record Panel : Type := {
  isLive : bool;
  error : option string;
  transcription : list Turn;
  currentTurn : Turn;
  sessionPromiseRef : option LiveSession;
  inputAudioContextRef : option AudioContext;
  outputAudioContextRef : option AudioContext;
  mediaStreamRef : option nat;
  scriptProcessorRef : option nat;
  nextStartTimeRef : Q;
  audioSourcesRef : list nat;
  calls : list call;
  fresh : nat
}.

Definition initial : Panel :=
  {| isLive := false; error := None; transcription := []; currentTurn := emptyTurn;
     sessionPromiseRef := None; inputAudioContextRef := None;
     outputAudioContextRef := None; mediaStreamRef := None;
     scriptProcessorRef := None; nextStartTimeRef := 0; audioSourcesRef := [];
     calls := []; fresh := 0 |}.

(** The state setters of React.  An updater function is applied to the
    latest state, whatever the render the caller belongs to. *)

Definition setIsLive (v : bool) (st : Panel) : Panel :=
  {| isLive := v; error := error st; transcription := transcription st;
     currentTurn := currentTurn st;
     sessionPromiseRef := sessionPromiseRef st;
     inputAudioContextRef := inputAudioContextRef st;
     outputAudioContextRef := outputAudioContextRef st;
     mediaStreamRef := mediaStreamRef st;
     scriptProcessorRef := scriptProcessorRef st;
     nextStartTimeRef := nextStartTimeRef st;
     audioSourcesRef := audioSourcesRef st; calls := calls st;
     fresh := fresh st |}.

Definition setError (v : option string) (st : Panel) : Panel :=
  {| isLive := isLive st; error := v; transcription := transcription st;
     currentTurn := currentTurn st;
     sessionPromiseRef := sessionPromiseRef st;
     inputAudioContextRef := inputAudioContextRef st;
     outputAudioContextRef := outputAudioContextRef st;
     mediaStreamRef := mediaStreamRef st;
     scriptProcessorRef := scriptProcessorRef st;
     nextStartTimeRef := nextStartTimeRef st;
     audioSourcesRef := audioSourcesRef st; calls := calls st;
     fresh := fresh st |}.

Definition setTranscription (f : list Turn -> list Turn) (st : Panel) : Panel :=
  {| isLive := isLive st; error := error st;
     transcription := f (transcription st); currentTurn := currentTurn st;
     sessionPromiseRef := sessionPromiseRef st;
     inputAudioContextRef := inputAudioContextRef st;
     outputAudioContextRef := outputAudioContextRef st;
     mediaStreamRef := mediaStreamRef st;
     scriptProcessorRef := scriptProcessorRef st;
     nextStartTimeRef := nextStartTimeRef st;
     audioSourcesRef := audioSourcesRef st; calls := calls st;
     fresh := fresh st |}.

Definition setCurrentTurn (f : Turn -> Turn) (st : Panel) : Panel :=
  {| isLive := isLive st; error := error st;
     transcription := transcription st; currentTurn := f (currentTurn st);
     sessionPromiseRef := sessionPromiseRef st;
     inputAudioContextRef := inputAudioContextRef st;
     outputAudioContextRef := outputAudioContextRef st;
     mediaStreamRef := mediaStreamRef st;
     scriptProcessorRef := scriptProcessorRef st;
     nextStartTimeRef := nextStartTimeRef st;
     audioSourcesRef := audioSourcesRef st; calls := calls st;
     fresh := fresh st |}.

(** Assignments to [ref.current]. *)

Definition set_sessionPromiseRef (v : option LiveSession) (st : Panel) : Panel :=
  {| isLive := isLive st; error := error st;
     transcription := transcription st; currentTurn := currentTurn st;
     sessionPromiseRef := v;
     inputAudioContextRef := inputAudioContextRef st;
     outputAudioContextRef := outputAudioContextRef st;
     mediaStreamRef := mediaStreamRef st;
     scriptProcessorRef := scriptProcessorRef st;
     nextStartTimeRef := nextStartTimeRef st;
     audioSourcesRef := audioSourcesRef st; calls := calls st;
     fresh := fresh st |}.

Definition set_inputAudioContextRef (v : option AudioContext) (st : Panel) : Panel :=
  {| isLive := isLive st; error := error st;
     transcription := transcription st; currentTurn := currentTurn st;
     sessionPromiseRef := sessionPromiseRef st; inputAudioContextRef := v;
     outputAudioContextRef := outputAudioContextRef st;
     mediaStreamRef := mediaStreamRef st;
     scriptProcessorRef := scriptProcessorRef st;
     nextStartTimeRef := nextStartTimeRef st;
     audioSourcesRef := audioSourcesRef st; calls := calls st;
     fresh := fresh st |}.

Definition set_outputAudioContextRef (v : option AudioContext) (st : Panel) : Panel :=
  {| isLive := isLive st; error := error st;
     transcription := transcription st; currentTurn := currentTurn st;
     sessionPromiseRef := sessionPromiseRef st;
     inputAudioContextRef := inputAudioContextRef st;
     outputAudioContextRef := v; mediaStreamRef := mediaStreamRef st;
     scriptProcessorRef := scriptProcessorRef st;
     nextStartTimeRef := nextStartTimeRef st;
     audioSourcesRef := audioSourcesRef st; calls := calls st;
     fresh := fresh st |}.

Definition set_mediaStreamRef (v : option nat) (st : Panel) : Panel :=
  {| isLive := isLive st; error := error st;
     transcription := transcription st; currentTurn := currentTurn st;
     sessionPromiseRef := sessionPromiseRef st;
     inputAudioContextRef := inputAudioContextRef st;
     outputAudioContextRef := outputAudioContextRef st; mediaStreamRef := v;
     scriptProcessorRef := scriptProcessorRef st;
     nextStartTimeRef := nextStartTimeRef st;
     audioSourcesRef := audioSourcesRef st; calls := calls st;
     fresh := fresh st |}.

Definition set_scriptProcessorRef (v : option nat) (st : Panel) : Panel :=
  {| isLive := isLive st; error := error st;
     transcription := transcription st; currentTurn := currentTurn st;
     sessionPromiseRef := sessionPromiseRef st;
     inputAudioContextRef := inputAudioContextRef st;
     outputAudioContextRef := outputAudioContextRef st;
     mediaStreamRef := mediaStreamRef st; scriptProcessorRef := v;
     nextStartTimeRef := nextStartTimeRef st;
     audioSourcesRef := audioSourcesRef st; calls := calls st;
     fresh := fresh st |}.

Definition set_nextStartTimeRef (v : Q) (st : Panel) : Panel :=
  {| isLive := isLive st; error := error st;
     transcription := transcription st; currentTurn := currentTurn st;
     sessionPromiseRef := sessionPromiseRef st;
     inputAudioContextRef := inputAudioContextRef st;
     outputAudioContextRef := outputAudioContextRef st;
     mediaStreamRef := mediaStreamRef st;
     scriptProcessorRef := scriptProcessorRef st; nextStartTimeRef := v;
     audioSourcesRef := audioSourcesRef st; calls := calls st;
     fresh := fresh st |}.

Definition set_audioSourcesRef (v : list nat) (st : Panel) : Panel :=
  {| isLive := isLive st; error := error st;
     transcription := transcription st; currentTurn := currentTurn st;
     sessionPromiseRef := sessionPromiseRef st;
     inputAudioContextRef := inputAudioContextRef st;
     outputAudioContextRef := outputAudioContextRef st;
     mediaStreamRef := mediaStreamRef st;
     scriptProcessorRef := scriptProcessorRef st;
     nextStartTimeRef := nextStartTimeRef st; audioSourcesRef := v;
     calls := calls st; fresh := fresh st |}.

(** A call into the platform, appended to the record of calls. *)

Definition perform (c : call) (st : Panel) : Panel :=
  {| isLive := isLive st; error := error st;
     transcription := transcription st; currentTurn := currentTurn st;
     sessionPromiseRef := sessionPromiseRef st;
     inputAudioContextRef := inputAudioContextRef st;
     outputAudioContextRef := outputAudioContextRef st;
     mediaStreamRef := mediaStreamRef st;
     scriptProcessorRef := scriptProcessorRef st;
     nextStartTimeRef := nextStartTimeRef st;
     audioSourcesRef := audioSourcesRef st; calls := calls st ++ [c];
     fresh := fresh st |}.

(** A new platform object is named by the next unused number. *)

Definition bump (_ : unit) (st : Panel) : Panel :=
  {| isLive := isLive st; error := error st;
     transcription := transcription st; currentTurn := currentTurn st;
     sessionPromiseRef := sessionPromiseRef st;
     inputAudioContextRef := inputAudioContextRef st;
     outputAudioContextRef := outputAudioContextRef st;
     mediaStreamRef := mediaStreamRef st;
     scriptProcessorRef := scriptProcessorRef st;
     nextStartTimeRef := nextStartTimeRef st;
     audioSourcesRef := audioSourcesRef st; calls := calls st;
     fresh := S (fresh st) |}.

Definition alloc (st : Panel) : nat * Panel := (fresh st, bump tt st).

(** A [Set] of platform objects, in insertion order. *)
Definition Set_add (x : nat) (s : list nat) : list nat :=
  if existsb (Nat.eqb x) s then s else s ++ [x].

Definition Set_delete (x : nat) (s : list nat) : list nat :=
  List.filter (fun y => negb (Nat.eqb x y)) s.

(** [audioSourcesRef.current.forEach(source => source.stop())] *)
Definition stopAll (st : Panel) : Panel :=
  fold_left (fun st source => perform (SourceStop source) st) (audioSourcesRef st) st.

(** The session promise is taken to be fulfilled when it is awaited. *)
Definition stopConversation (st : Panel) : Panel :=
  let st :=
    match sessionPromiseRef st with
    | Some session =>
        set_sessionPromiseRef None (perform (SessionClose (session_id session)) st)
    | None => st
    end in
  let st :=
    match mediaStreamRef st with
    | Some stream => perform (TrackStop stream) st
    | None => st
    end in
  let st :=
    match scriptProcessorRef st with
    | Some node => perform (Disconnect node) st
    | None => st
    end in
  let st :=
    match inputAudioContextRef st with
    | Some ctx => perform (ContextClose (ctx_id ctx)) st
    | None => st
    end in
  let st :=
    match outputAudioContextRef st with
    | Some ctx => perform (ContextClose (ctx_id ctx)) st
    | None => st
    end in
  let st := stopAll st in
  let st := set_audioSourcesRef [] st in
  setIsLive false st.

(** [startConversation] belongs to the render that handled the click; the
    [isLive] and [currentTurn] it sees are those of the state at the click.
    [granted] tells whether [getUserMedia] resolves. *)
Definition startConversation (granted : bool) (st : Panel) : Panel :=
  if isLive st then st
  else
    let closure := currentTurn st in
    let st := setIsLive true st in
    let st := setError None st in
    let st := setTranscription (fun _ => []) st in
    let st := setCurrentTurn (fun _ => emptyTurn) st in
    let st := perform GetUserMedia st in
    if granted then
      let (stream, st) := alloc st in
      let st := set_mediaStreamRef (Some stream) st in
      let (input, st) := alloc st in
      let st := set_inputAudioContextRef (Some {| ctx_id := input; ctx_sampleRate := 16000 |}) st in
      let (output, st) := alloc st in
      let st := set_outputAudioContextRef (Some {| ctx_id := output; ctx_sampleRate := 24000 |}) st in
      let st := set_nextStartTimeRef 0 st in
      let (session, st) := alloc st in
      let st := perform (Connect session) st in
      set_sessionPromiseRef
        (Some {| session_id := session; closure_currentTurn := closure;
                 closure_stream := stream |}) st
    else
      let st :=
        setError (Some "Could not access microphone. Please grant permission and try again.") st in
      setIsLive false st.

Definition onopen (session : LiveSession) (st : Panel) : Panel :=
  let (scriptProcessor, st) := alloc st in
  set_scriptProcessorRef (Some scriptProcessor) st.

(** [new Uint8Array(new Int16Array(inputData.map(f => f * 32768)).buffer)],
    the conversion the specification calls floatToInt16.  [inputData] is a
    [Float32Array] and so is the result of [map]: on 32-bit floats the
    product is exact, or it overflows to an infinity where the exact product
    is a multiple of 2^16, and both are stored as 0. *)
Definition floatToInt16 (inputData : list number) : list byte :=
  Int16Array_bytes (Int16Array_of_numbers (map (fun f => number_mul f 32768) inputData)).

Definition onaudioprocess (inputData : list number) (st : Panel) : Panel :=
  let data := encode (floatToInt16 inputData) in
  let mimeType := "audio/pcm;rate=16000" in
  match sessionPromiseRef st with
  | Some session => perform (SendRealtimeInput (session_id session) data mimeType) st
  | None => st
  end.

(** [currentTime] is the reading of [outputCtx.currentTime].  The handler
    runs to its end before the next message is handled.  When decoding
    throws, the handler stops there: the result holds the state reached and
    the exception. *)
Definition onmessage (session : LiveSession) (currentTime : Q)
    (message : LiveServerMessage) (st : Panel) : Panel * option exn :=
  let st :=
    match inputTranscription message with
    | Some text =>
        setCurrentTurn (fun prev => {| user := user prev ++ text; model := model prev |}) st
    | None => st
    end in
  let st :=
    match outputTranscription message with
    | Some text =>
        setCurrentTurn (fun prev => {| user := user prev; model := model prev ++ text |}) st
    | None => st
    end in
  let st :=
    if turnComplete message then
      let st := setTranscription (fun prev => prev ++ [closure_currentTurn session]) st in
      setCurrentTurn (fun _ => emptyTurn) st
    else st in
  let scheduled :=
    match audioData message, outputAudioContextRef st with
    | Some data, Some outputCtx =>
        if String.eqb data EmptyString then (st, None)
        else
          let st := set_nextStartTimeRef (Math_max (nextStartTimeRef st) currentTime) st in
          match bytes ← decode data; decodeAudioData bytes 24000 1 with
          | Normal audioBuffer =>
              let (source, st) := alloc st in
              let st := perform (SourceStart source (nextStartTimeRef st) audioBuffer) st in
              let st := set_nextStartTimeRef (nextStartTimeRef st + duration audioBuffer) st in
              (set_audioSourcesRef (Set_add source (audioSourcesRef st)) st, None)
          | Throw e => (st, Some e)
          end
    | _, _ => (st, None)
    end in
  match scheduled with
  | (st, None) =>
      if interrupted message then
        let st := stopAll st in
        let st := set_audioSourcesRef [] st in
        (set_nextStartTimeRef 0 st, None)
      else (st, None)
  | thrown => thrown
  end.

(** The ['ended'] listener of a source. *)
Definition onended (source : nat) (st : Panel) : Panel :=
  set_audioSourcesRef (Set_delete source (audioSourcesRef st)) st.

Definition onerror (st : Panel) : Panel :=
  let st := setError (Some "An error occurred during the session.") st in
  stopConversation st.

Definition onclose (st : Panel) : Panel := stopConversation st.

End LiveConvoPanel.

(** ** The specification's statements, and example sessions *)

Module Spec.
Import JS Helpers LiveConvoPanel.

Open Scope Z_scope.

(** The bytes of a four-character tag. *)
Definition tag (s : string) : list byte := map byte_of_ascii (list_ascii_of_string s).

(** The 44-byte header of section 4.3, field by field. *)
Definition wav_header (dataSize sampleRate numChannels bitsPerSample : Z) : list byte :=
  tag "RIFF" ++ le32 (36 + dataSize) ++ tag "WAVE"
  ++ tag "fmt " ++ le32 16 ++ le16 1 ++ le16 numChannels ++ le32 sampleRate
  ++ le32 (sampleRate * numChannels * bitsPerSample ÷ 8)
  ++ le16 (numChannels * bitsPerSample ÷ 8)
  ++ le16 bitsPerSample
  ++ tag "data" ++ le32 dataSize.

(** The unsigned integer a little-endian byte sequence stands for. *)
Fixpoint uint_le (bytes : list byte) : Z :=
  match bytes with
  | [] => 0
  | b :: r => Z.of_N (Byte.to_N b) + 256 * uint_le r
  end.

(** Bytes [from] to [from + len - 1]. *)
Definition slice (from len : nat) (bytes : list byte) : list byte :=
  take len (drop from bytes).

(** Section 4.2 read to the letter: scale by 32768, keep the integer part,
    clamp it to the 16-bit range, store it little-endian. *)
Definition clamp16 (z : Z) : Z := Z.max (-32768) (Z.min 32767 z).

Definition floatToInt16_clamped (samples : list Q) : list byte :=
  flat_map (fun q => le16 (clamp16 (truncate (q * 32768)))) samples.

Definition int16_range (z : Z) : Prop := -32768 <= z < 32768.

(** The [k]-th 16-bit sample of a byte sequence. *)
Definition int16_at (data : list byte) (k : nat) : option Z :=
  match data !! (2 * k)%nat, data !! (2 * k + 1)%nat with
  | Some lo, Some hi => Some (int16_of_bytes lo hi)
  | _, _ => None
  end.

(** The interleaved samples taken apart: sample [i] of channel [c] is the
    sample [i * numChannels + c] of the input, divided by 32768. *)
Definition deinterleaved (data : list byte) (numChannels : nat) : list (list number) :=
  map (fun c =>
         map (fun i =>
                match int16_at data (i * numChannels + c) with
                | Some z => Fin (inject_Z z / 32768)
                | None => NaN
                end)
             (seq 0 (length data / 2 / numChannels)))
      (seq 0 numChannels).

(** What the capture path stores for one sample: a 16-bit integer; for a
    finite sample, the integer part of the scaled value (rounded toward
    zero) reduced modulo 2^16; for [NaN] and the infinities, zero. *)
Definition stored_sample (x : number) (v : Z) : Prop :=
  int16_range v /\
  match x with
  | Fin q =>
      let t := truncate (q * 32768) in
      (Qabs (inject_Z t) <= Qabs (q * 32768) < Qabs (inject_Z t) + 1)%Q
      /\ (v - t) mod 65536 = 0
      /\ ((-1 <= q < 1)%Q -> v = t)
  | _ => v = 0
  end.

(** [int16ToFloat(floatToInt16(s))] on one channel, as the playback path
    decodes it. *)
Definition pcm_roundtrip (s : list Q) : completion (list (list number)) :=
  buffer ← decodeAudioData (floatToInt16 (map Fin s)) 24000 1;
  Normal (buf_channels buffer).

(** A sample recovered within one quantization step. *)
Definition within_step (q : Q) (r : number) : Prop :=
  exists q', r = Fin q' /\ (Qabs (q' - q) <= 1 # 32768)%Q.

Definition roundtrip_within_step (s : list Q) : Prop :=
  exists out, pcm_roundtrip s = Normal [out] /\ Forall2 within_step s out.

Close Scope Z_scope.

(** *** The playback scheduler and the session *)

(** What decoding the audio of a message gives: nothing when the message
    carries no audio, otherwise the buffer or the exception. *)
Definition chunk_result (message : LiveServerMessage) : option (completion AudioBuffer) :=
  match audioData message with
  | Some data =>
      if String.eqb data EmptyString then None
      else Some (bytes ← decode data; decodeAudioData bytes 24000 1)
  | None => None
  end.

Definition decoded_chunk (message : LiveServerMessage) : option AudioBuffer :=
  match chunk_result message with
  | Some (Normal buffer) => Some buffer
  | _ => None
  end.

(** The start time and the duration of every buffer handed to the output. *)
Fixpoint scheduled (cs : list call) : list (Q * Q) :=
  match cs with
  | SourceStart _ when buffer :: r => (when, duration buffer) :: scheduled r
  | _ :: r => scheduled r
  | [] => []
  end.

(** The state after a sequence of calls. *)
Definition perform_all (cs : list call) (st : Panel) : Panel :=
  {| isLive := isLive st; error := error st; transcription := transcription st;
     currentTurn := currentTurn st; sessionPromiseRef := sessionPromiseRef st;
     inputAudioContextRef := inputAudioContextRef st;
     outputAudioContextRef := outputAudioContextRef st;
     mediaStreamRef := mediaStreamRef st; scriptProcessorRef := scriptProcessorRef st;
     nextStartTimeRef := nextStartTimeRef st; audioSourcesRef := audioSourcesRef st;
     calls := calls st ++ cs; fresh := fresh st |}.

(** How many times a call was made. *)
Definition same_call (a b : call) : bool :=
  match a, b with
  | SessionClose x, SessionClose y => Nat.eqb x y
  | TrackStop x, TrackStop y => Nat.eqb x y
  | Disconnect x, Disconnect y => Nat.eqb x y
  | ContextClose x, ContextClose y => Nat.eqb x y
  | SourceStop x, SourceStop y => Nat.eqb x y
  | _, _ => false
  end.

Definition times (c : call) (cs : list call) : nat :=
  length (List.filter (same_call c) cs).

Definition session_close (st : Panel) : list call :=
  match sessionPromiseRef st with
  | Some session => [SessionClose (session_id session)]
  | None => []
  end.

(** The release calls a second [stopConversation] repeats: those of the
    refs the first one left set. *)
Definition repeated_releases (st : Panel) : list call :=
  match mediaStreamRef st with Some stream => [TrackStop stream] | None => [] end
  ++ match scriptProcessorRef st with Some node => [Disconnect node] | None => [] end
  ++ match inputAudioContextRef st with Some ctx => [ContextClose (ctx_id ctx)] | None => [] end
  ++ match outputAudioContextRef st with Some ctx => [ContextClose (ctx_id ctx)] | None => [] end.

(** A session in progress: started with the microphone granted, channel
    open. *)
Definition started : Panel := startConversation true initial.

Definition the_session : LiveSession :=
  {| session_id := 3; closure_currentTurn := emptyTurn; closure_stream := 0 |}.

Definition live : Panel := onopen the_session started.

Definition user_says (text : string) : LiveServerMessage :=
  {| inputTranscription := Some text; outputTranscription := None; turnComplete := false;
     audioData := None; interrupted := false |}.

Definition turn_complete : LiveServerMessage :=
  {| inputTranscription := None; outputTranscription := None; turnComplete := true;
     audioData := None; interrupted := false |}.

Definition user_says_and_completes (text : string) : LiveServerMessage :=
  {| inputTranscription := Some text; outputTranscription := None; turnComplete := true;
     audioData := None; interrupted := false |}.

Definition audio_chunk (data : string) : LiveServerMessage :=
  {| inputTranscription := None; outputTranscription := None; turnComplete := false;
     audioData := Some data; interrupted := false |}.

Definition interruption : LiveServerMessage :=
  {| inputTranscription := None; outputTranscription := None; turnComplete := false;
     audioData := None; interrupted := true |}.

(** Four samples of silence, base64-encoded, and the buffer they decode
    to. *)
Definition silence : string := encode (floatToInt16 [Fin 0; Fin 0; Fin 0; Fin 0]).

Definition silence_buffer : AudioBuffer :=
  {| buf_sampleRate := 24000;
     buf_length := 4;
     buf_channels := [[Fin (0 # 32768); Fin (0 # 32768); Fin (0 # 32768); Fin (0 # 32768)]] |}.

End Spec.

Import JS Helpers LiveConvoPanel Spec.


(** ** Further statements about the helpers *)

Module HelpersSpec.
Import JS Helpers.

(** A base64 text without its [=] characters. *)
Definition without_padding (s : string) : string :=
  string_of_list_ascii
    (List.filter (fun c => negb (Ascii.eqb c pad_char)) (list_ascii_of_string s)).

(** A character of the base64 alphabet. *)
Definition in_alphabet (c : ascii) : Prop := exists v, b64_value c = Some v.

(** A sample of the unit range of 16-bit PCM. *)
Definition unit_sample (x : number) : Prop :=
  exists q, x = Fin q /\ (-1 <= q < 1)%Q.

End HelpersSpec.

Import HelpersSpec.

(** ** The callbacks of the live panel, in any order *)

Module Session.
Import JS Helpers LiveConvoPanel.

(** One invocation of a handler of the component: the button (which calls
    [startConversation] or [stopConversation]), a callback of a session, the
    capture callback, the ['ended'] listener of a source. *)
Inductive event : Type :=
| StartConversation (granted : bool)
| StopConversation
| OnOpen (session : LiveSession)
| OnAudioProcess (inputData : list number)
| OnMessage (session : LiveSession) (currentTime : Q) (message : LiveServerMessage)
| OnEnded (source : nat)
| OnError
| OnClose.

Definition handle (st : Panel) (ev : event) : Panel :=
  match ev with
  | StartConversation granted => startConversation granted st
  | StopConversation => stopConversation st
  | OnOpen session => onopen session st
  | OnAudioProcess inputData => onaudioprocess inputData st
  | OnMessage session currentTime message => fst (onmessage session currentTime message st)
  | OnEnded source => onended source st
  | OnError => onerror st
  | OnClose => onclose st
  end.

Definition run (evs : list event) (st : Panel) : Panel := fold_left handle evs st.

(** The sources named by a call. *)
Definition stops (source : nat) (c : call) : bool :=
  match c with
  | SourceStop s => Nat.eqb source s
  | _ => false
  end.

Definition starts (source : nat) (c : call) : bool :=
  match c with
  | SourceStart s _ _ => Nat.eqb source s
  | _ => false
  end.

(** Every source a call names is older than the next fresh object. *)
Definition named_below (n : nat) (c : call) : Prop :=
  match c with
  | SourceStart s _ _ => s < n
  | SourceStop s => s < n
  | _ => True
  end.

(** The invariant of the active set: its sources are distinct, each has
    been started and none has been stopped. *)
Record sources_ok (st : Panel) : Prop := {
  calls_below : Forall (named_below (fresh st)) (calls st);
  set_nodup : NoDup (audioSourcesRef st);
  set_started : forall s, In s (audioSourcesRef st) -> existsb (starts s) (calls st) = true;
  set_running : forall s, In s (audioSourcesRef st) -> existsb (stops s) (calls st) = false;
  stopped_once : forall s, (length (List.filter (stops s) (calls st)) <= 1)%nat;
  started_once : forall s, (length (List.filter (starts s) (calls st)) <= 1)%nat
}.

(** The three stages of [onmessage]: the transcript, the audio of the
    message, the interruption signal. *)
Definition transcribe (session : LiveSession) (message : LiveServerMessage) (st : Panel)
    : Panel :=
  let st :=
    match inputTranscription message with
    | Some text =>
        setCurrentTurn (fun prev => {| user := user prev ++ text; model := model prev |}) st
    | None => st
    end in
  let st :=
    match outputTranscription message with
    | Some text =>
        setCurrentTurn (fun prev => {| user := user prev; model := model prev ++ text |}) st
    | None => st
    end in
  if turnComplete message then
    let st := setTranscription (fun prev => prev ++ [closure_currentTurn session]) st in
    setCurrentTurn (fun _ => emptyTurn) st
  else st.

Definition schedule (currentTime : Q) (message : LiveServerMessage) (st : Panel)
    : Panel * option exn :=
  match audioData message, outputAudioContextRef st with
  | Some data, Some outputCtx =>
      if String.eqb data EmptyString then (st, None)
      else
        let st := set_nextStartTimeRef (Math_max (nextStartTimeRef st) currentTime) st in
        match bytes ← decode data; decodeAudioData bytes 24000 1 with
        | Normal audioBuffer =>
            let (source, st) := alloc st in
            let st := perform (SourceStart source (nextStartTimeRef st) audioBuffer) st in
            let st := set_nextStartTimeRef (nextStartTimeRef st + duration audioBuffer) st in
            (set_audioSourcesRef (Set_add source (audioSourcesRef st)) st, None)
        | Throw e => (st, Some e)
        end
  | _, _ => (st, None)
  end.

Definition interrupt (message : LiveServerMessage) (st : Panel) : Panel :=
  if interrupted message then
    let st := stopAll st in
    let st := set_audioSourcesRef [] st in
    set_nextStartTimeRef 0 st
  else st.

(** An event that leaves the cursor where playback has taken it: anything
    but a start of the conversation and a message with the interruption
    signal. *)
Definition quiet (ev : event) : bool :=
  match ev with
  | StartConversation _ => false
  | OnMessage _ _ message => negb (interrupted message)
  | _ => true
  end.

(** Buffers scheduled one after the other: each starts when the one before
    has ended, or later. *)
Fixpoint no_overlap (l : list (Q * Q)) : Prop :=
  match l with
  | (when, d) :: r =>
      match r with
      | (next, _) :: _ => (when + d <= next)%Q
      | [] => True
      end /\ no_overlap r
  | [] => True
  end.

(** The messages of a list that close a turn. *)
Definition turns_completed (messages : list LiveServerMessage) : nat :=
  length (List.filter turnComplete messages).

(** The fragments of a turn, one message each. *)
Definition user_fragments (session : LiveSession) (currentTime : Q) (texts : list string)
    : list event :=
  map (fun text => OnMessage session currentTime (user_says text)) texts.

End Session.

(** ** [String.prototype.trim] *)

Module JSText.

(** White space and line terminators among the code units below 256. *)
Definition is_white_space (c : ascii) : bool :=
  let n := N_of_ascii c in
  ((9 <=? n) && (n <=? 13) || (n =? 32) || (n =? 160))%N.

(** [!s.trim()]: nothing is left once the white space is trimmed. *)
Definition blank (s : string) : bool := forallb is_white_space (list_ascii_of_string s).

End JSText.

Import JSText.

(** ** components/panels/TtsPanel.tsx *)

Module TtsPanel.
Import JS Helpers.

(** What the panel hands to the platform: a buffer to play at once, a file
    to save. *)
Inductive call : Type :=
| NewAudioContext
| SourceStart (buffer : AudioBuffer)
| Download (file : Blob) (filename : string).

Record Panel : Type := {
  text : string;
  isLoading : bool;
  error : option string;
  generatedAudio : option string;
  audioContextRef : bool;
  calls : list call
}.

Definition setIsLoading (v : bool) (st : Panel) : Panel :=
  {| text := text st; isLoading := v; error := error st;
     generatedAudio := generatedAudio st; audioContextRef := audioContextRef st;
     calls := calls st |}.

Definition setError (v : option string) (st : Panel) : Panel :=
  {| text := text st; isLoading := isLoading st; error := v;
     generatedAudio := generatedAudio st; audioContextRef := audioContextRef st;
     calls := calls st |}.

Definition setGeneratedAudio (v : option string) (st : Panel) : Panel :=
  {| text := text st; isLoading := isLoading st; error := error st;
     generatedAudio := v; audioContextRef := audioContextRef st;
     calls := calls st |}.

Definition set_audioContextRef (v : bool) (st : Panel) : Panel :=
  {| text := text st; isLoading := isLoading st; error := error st;
     generatedAudio := generatedAudio st; audioContextRef := v;
     calls := calls st |}.

Definition perform (c : call) (st : Panel) : Panel :=
  {| text := text st; isLoading := isLoading st; error := error st;
     generatedAudio := generatedAudio st; audioContextRef := audioContextRef st;
     calls := calls st ++ [c] |}.

(** What [ai.models.generateContent] gives: a rejection, or a response whose
    first part may hold audio. *)
Inductive response : Type :=
| Rejected
| Candidates (base64Audio : option string).

Definition failed : option string := Some "Failed to generate speech. Please try again.".

(** The context is created once and never closed by the panel. *)
Definition handleSpeak (r : response) (st : Panel) : Panel :=
  if blank (text st) then setError (Some "Please enter some text to speak.") st
  else
    let st := setIsLoading true st in
    let st := setError None st in
    let st := setGeneratedAudio None st in
    let st :=
      match r with
      | Candidates (Some base64Audio) =>
          if String.eqb base64Audio EmptyString then setError failed st
          else
            let st := setGeneratedAudio (Some base64Audio) st in
            let st :=
              if audioContextRef st then st
              else set_audioContextRef true (perform NewAudioContext st) in
            match bytes ← decode base64Audio; decodeAudioData bytes 24000 1 with
            | Normal audioBuffer => perform (SourceStart audioBuffer) st
            | Throw _ => setError failed st
            end
      | Candidates None => setError failed st
      | Rejected => setError failed st
      end in
    setIsLoading false st.

Definition handleDownload (st : Panel) : Panel :=
  match generatedAudio st with
  | Some audio =>
      if String.eqb audio EmptyString then st
      else
        match pcmData ← decode audio; createWavBlob pcmData 24000 1 16 with
        | Normal wavBlob => perform (Download wavBlob "jarvis-speech.wav") st
        | Throw _ => setError (Some "Could not prepare the audio file for download.") st
        end
  | None => st
  end.

End TtsPanel.

(** ** components/panels/ChatPanel.tsx *)

Module ChatPanel.

Inductive Role : Type := User | Model.

Record ChatMessage : Type := {
  role : Role;
  content : string
}.

Record Panel : Type := {
  messages : list ChatMessage;
  input : string;
  isLoading : bool;
  isThinkingMode : bool;
  chatRef : bool
}.

Definition setMessages (f : list ChatMessage -> list ChatMessage) (st : Panel) : Panel :=
  {| messages := f (messages st); input := input st; isLoading := isLoading st;
     isThinkingMode := isThinkingMode st; chatRef := chatRef st |}.

Definition setInput (v : string) (st : Panel) : Panel :=
  {| messages := messages st; input := v; isLoading := isLoading st;
     isThinkingMode := isThinkingMode st; chatRef := chatRef st |}.

Definition setIsLoading (v : bool) (st : Panel) : Panel :=
  {| messages := messages st; input := input st; isLoading := v;
     isThinkingMode := isThinkingMode st; chatRef := chatRef st |}.

(** What the service would answer: the text [generateContent] resolves
    with, or [None] when it rejects; the chunks [sendMessageStream] yields
    and whether the stream then ends or throws, or [None] when the call
    itself rejects.  Every chunk is taken to carry a text. *)
Record Service : Type := {
  generateContent : option string;
  sendMessageStream : option (list string * bool)
}.

(** [const newMessages = [...prev]; newMessages[newMessages.length - 1] = m].
    On an empty array the assignment adds a property named -1 and no
    element. *)
Definition replace_last (m : ChatMessage) (prev : list ChatMessage) : list ChatMessage :=
  match prev with
  | [] => []
  | _ => <[(length prev - 1)%nat := m]> prev
  end.

Definition apology : ChatMessage :=
  {| role := Model; content := "Sorry, I encountered an error. Please try again." |}.

(** The body of [for await (const chunk of stream)], with
    [currentBotMessage] threaded. *)
Definition on_chunk (acc : string * Panel) (chunk : string) : string * Panel :=
  let currentBotMessage := (fst acc ++ chunk)%string in
  (currentBotMessage,
   setMessages (replace_last {| role := Model; content := currentBotMessage |}) (snd acc)).

(** [input], [isLoading] and [isThinkingMode] are those of the render that
    handled the click; no other update of the messages falls between the
    steps of one call. *)
Definition handleSend (api : Service) (st : Panel) : Panel :=
  if blank (input st) || isLoading st then st
  else
    let message := input st in
    let thinking := isThinkingMode st in
    let st :=
      setMessages (fun prev => prev ++ [{| role := User; content := message |}]) st in
    let st := setInput EmptyString st in
    let st := setIsLoading true st in
    let st :=
      if thinking then
        match generateContent api with
        | Some text =>
            setMessages (fun prev => prev ++ [{| role := Model; content := text |}]) st
        | None => setMessages (fun prev => prev ++ [apology]) st
        end
      else if negb (chatRef st) then setMessages (fun prev => prev ++ [apology]) st
      else
        match sendMessageStream api with
        | Some (chunks, completes) =>
            let st :=
              setMessages
                (fun prev => prev ++ [{| role := Model; content := EmptyString |}]) st in
            let st := snd (fold_left on_chunk chunks (EmptyString, st)) in
            if completes then st else setMessages (fun prev => prev ++ [apology]) st
        | None => setMessages (fun prev => prev ++ [apology]) st
        end in
    setIsLoading false st.

End ChatPanel.

Import Session.
Section Loops.
Context {S : Type}.

Lemma for_loop_S (n : nat) (body : nat -> S -> S) (s : S) :
  for_loop (Datatypes.S n) body s = body n (for_loop n body s).
Proof.
  unfold for_loop. rewrite seq_S, fold_left_app. reflexivity.
Qed.

Lemma for_loop_invariant (P : S -> Prop) (n : nat) (body : nat -> S -> S) (s : S) :
  (forall i s, P s -> P (body i s)) -> P s -> P (for_loop n body s).
Proof.
  intros Hbody Hs. induction n as [|n IH]; [exact Hs|].
  rewrite for_loop_S. apply Hbody, IH.
Qed.

Lemma for_loop_c_S (n : nat) (body : nat -> S -> completion S) (s : S) :
  for_loop_c (Datatypes.S n) body s = bind (for_loop_c n body s) (body n).
Proof.
  unfold for_loop_c. rewrite seq_S, fold_left_app. reflexivity.
Qed.
End Loops.

(** Lists three elements at a time. *)
Lemma list_ind3 {A : Type} (P : list A -> Prop) :
P [] -> (forall a, P [a]) -> (forall a b, P [a; b]) ->
(forall a b c r, P r -> P (a :: b :: c :: r)) ->
forall l, P l.
Proof.
intros H0 H1 H2 H3.
fix IH 1. intros [|a [|b [|c r]]].
- exact H0.
- apply H1.
- apply H2.
- apply H3, IH.
Qed.

(** Lists two elements at a time. *)
Lemma list_ind2 {A : Type} (P : list A -> Prop) :
P [] -> (forall a, P [a]) ->
(forall a b r, P r -> P (a :: b :: r)) ->
forall l, P l.
Proof.
intros H0 H1 H2.
fix IH 1. intros [|a [|b r]].
- exact H0.
- apply H1.
- apply H2, IH.
Qed.

(** ** The codec *)

Section Codec.
Local Open Scope N_scope.

Ltac each_sextet n :=
  let H := fresh in
  let m := fresh "m" in
  intros H;
  assert (N.to_nat n < 64)%nat by lia;
  rewrite <- (N2Nat.id n); generalize dependent (N.to_nat n); clear H;
  intros m ?;
  do 64 (destruct m as [|m]; [reflexivity|]); lia.

Lemma b64_value_char (n : N) : n < 64 -> b64_value (b64_char n) = Some n.
Proof. each_sextet n. Qed.

Lemma b64_char_not_pad (n : N) : n < 64 -> Ascii.eqb (b64_char n) pad_char = false.
Proof. each_sextet n. Qed.

Lemma b64_char_not_whitespace (n : N) :
  n < 64 -> is_ascii_whitespace (b64_char n) = false.
Proof. each_sextet n. Qed.

Lemma octet_bound (a : ascii) : N_of_ascii a < 256.
Proof. apply N_ascii_bounded. Qed.

Ltac octet_bounds :=
  repeat match goal with
         | |- context [N_of_ascii ?a] =>
             lazymatch goal with
             | _ : N_of_ascii a < 256 |- _ => fail
             | _ => pose proof (octet_bound a)
             end
         end.

Ltac sextet_arith := cbv beta; zify; Z.to_euclidean_division_equations; lia.

Lemma sextets_bound (l : list ascii) : Forall (fun v => v < 64) (sextets l).
Proof.
  induction l as [|a|a b|a b c r IH] using list_ind3; cbn [sextets]; cbv zeta.
  - apply List.Forall_nil.
  - pose proof (octet_bound a).
    repeat apply List.Forall_cons; try apply List.Forall_nil; sextet_arith.
  - pose proof (octet_bound a). pose proof (octet_bound b).
    repeat apply List.Forall_cons; try apply List.Forall_nil; sextet_arith.
  - pose proof (octet_bound a). pose proof (octet_bound b). pose proof (octet_bound c).
    repeat apply List.Forall_cons; try exact IH; sextet_arith.
Qed.

Lemma regroup_one (a : N) :
  a < 256 ->
  let n := a * 65536 in
  (n / 262144 * 64 + n / 4096 mod 64) / 16 = a.
Proof. intros H n. subst n. sextet_arith. Qed.

Lemma regroup_two (a b : N) :
  a < 256 -> b < 256 ->
  let n := a * 65536 + b * 256 in
  let m := ((n / 262144 * 64 + n / 4096 mod 64) * 64 + n / 64 mod 64) / 4 in
  m / 256 = a /\ m mod 256 = b.
Proof. intros Ha Hb n m. subst n m. split; sextet_arith. Qed.

Lemma regroup_three (a b c : N) :
  a < 256 -> b < 256 -> c < 256 ->
  let n := a * 65536 + b * 256 + c in
  let m := ((n / 262144 * 64 + n / 4096 mod 64) * 64 + n / 64 mod 64) * 64 + n mod 64 in
  m / 65536 = a /\ m / 256 mod 256 = b /\ m mod 256 = c.
Proof. intros Ha Hb Hc n m. subst n m. repeat split; sextet_arith. Qed.

Lemma octets_sextets (l : list ascii) : octets (sextets l) = Some l.
Proof.
  induction l as [|a|a b|a b c r IH] using list_ind3; cbn [sextets octets]; cbv zeta.
  - reflexivity.
  - rewrite (regroup_one _ (octet_bound a)), ascii_N_embedding. reflexivity.
  - destruct (regroup_two _ _ (octet_bound a) (octet_bound b)) as [-> ->].
    rewrite !ascii_N_embedding. reflexivity.
  - destruct (regroup_three _ _ _ (octet_bound a) (octet_bound b) (octet_bound c))
      as (-> & -> & ->).
    rewrite IH, !ascii_N_embedding. reflexivity.
Qed.

Lemma mapM_b64_value (vs : list N) :
  Forall (fun v => v < 64) vs -> mapM b64_value (map b64_char vs) = Some vs.
Proof.
  induction 1 as [|v vs Hv _ IH]; [reflexivity|].
  cbn. rewrite (b64_value_char v Hv). cbn. rewrite IH. reflexivity.
Qed.

Lemma padding_SSS (n : nat) : padding (3 + n) = padding n.
Proof.
  unfold padding. replace (3 + n)%nat with (n + 1 * 3)%nat by lia.
  rewrite Nat.Div0.mod_add. reflexivity.
Qed.

Lemma padding_cases (n : nat) :
  padding n = [] \/ padding n = [pad_char] \/ padding n = [pad_char; pad_char].
Proof. unfold padding. destruct (n mod 3)%nat as [|[|[|?]]]; auto. Qed.

Lemma encoded_length (l : list ascii) :
  (length (map b64_char (sextets l) ++ padding (length l)) mod 4 = 0)%nat.
Proof.
  induction l as [|a|a b|a b c r IH] using list_ind3; try reflexivity.
  cbn [sextets length]; cbv zeta. change (S (S (S (length r)))) with (3 + length r)%nat.
  rewrite padding_SSS. cbn [map app length].
  rewrite length_app, length_map in IH |- *.
  replace (S (S (S (S (length (sextets r) + length (padding (length r)))))))
    with (length (sextets r) + length (padding (length r)) + 1 * 4)%nat by lia.
  rewrite Nat.Div0.mod_add. exact IH.
Qed.

Lemma filter_id {A : Type} (p : A -> bool) (l : list A) :
  Forall (fun x => p x = true) l -> List.filter p l = l.
Proof.
  induction 1 as [|x l Hx _ IH]; [reflexivity|].
  cbn. rewrite Hx, IH. reflexivity.
Qed.

Lemma encoded_no_whitespace (vs : list N) (n : nat) :
  Forall (fun v => v < 64) vs ->
  Forall (fun c => negb (is_ascii_whitespace c) = true) (map b64_char vs ++ padding n).
Proof.
  intros H. apply Forall_app. split.
  - apply Forall_map. eapply Forall_impl; [exact H|].
    intros v Hv. cbn. rewrite (b64_char_not_whitespace v Hv). reflexivity.
  - destruct (padding_cases n) as [-> | [-> | ->]]; repeat constructor.
Qed.

Lemma strip_padding_encoded (vs : list N) (n : nat) :
  Forall (fun v => v < 64) vs ->
  (length (map b64_char vs ++ padding n) mod 4 = 0)%nat ->
  strip_padding (map b64_char vs ++ padding n) = map b64_char vs.
Proof.
  intros Hvs Hlen. unfold strip_padding. rewrite Hlen. cbn [Nat.eqb].
  assert (Hrev : Forall (fun c => Ascii.eqb c pad_char = false) (rev (map b64_char vs))).
  { apply Forall_rev, Forall_map. eapply Forall_impl; [exact Hvs|].
    intros v Hv. apply (b64_char_not_pad v Hv). }
  rewrite rev_app_distr.
  destruct (padding_cases n) as [-> | [-> | ->]]; cbn [rev app drop_padding_rev].
  - destruct (rev (map b64_char vs)) as [|c1 r1] eqn:E; cbn [drop_padding_rev].
    + rewrite <- (rev_involutive (map b64_char vs)), E. reflexivity.
    + inversion Hrev as [|? ? Hc1 _]; subst. rewrite Hc1, <- E. apply rev_involutive.
  - rewrite Ascii.eqb_refl.
    destruct (rev (map b64_char vs)) as [|c2 r2] eqn:E.
    + rewrite <- (rev_involutive (map b64_char vs)), E. reflexivity.
    + inversion Hrev as [|? ? Hc2 _]; subst. rewrite Hc2, <- E. apply rev_involutive.
  - rewrite !Ascii.eqb_refl. apply rev_involutive.
Qed.

Lemma atob_btoa (s : string) : atob (btoa s) = Normal s.
Proof.
  unfold atob, btoa. rewrite list_ascii_of_string_of_list_ascii.
  set (l := list_ascii_of_string s).
  pose proof (sextets_bound l) as Hb.
  rewrite (filter_id _ _ (encoded_no_whitespace _ (length l) Hb)).
  rewrite (strip_padding_encoded _ _ Hb (encoded_length l)).
  rewrite (mapM_b64_value _ Hb), octets_sextets.
  subst l. rewrite string_of_list_ascii_of_string. reflexivity.
Qed.
End Codec.

Lemma string_of_list_ascii_snoc (l : list ascii) (c : ascii) :
string_of_list_ascii (l ++ [c]) = (string_of_list_ascii l ++ String c EmptyString)%string.
Proof. induction l as [|x l IH]; cbn; [reflexivity|]. rewrite IH. reflexivity. Qed.

Lemma get_list_ascii (s : string) (i : nat) :
String.get i s = list_ascii_of_string s !! i.
Proof.
revert i. induction s as [|c s IH]; intros [|i]; cbn; auto.
Qed.

Lemma length_list_ascii (s : string) :
length (list_ascii_of_string s) = String.length s.
Proof. induction s as [|c s IH]; cbn; auto. Qed.

Lemma ToUint8_charCode (c : ascii) :
  byte_of_Z (ToUint8 (Fin (inject_Z (Z.of_N (N_of_ascii c))))) = byte_of_ascii c.
Proof. destruct c as [[] [] [] [] [] [] [] []]; reflexivity. Qed.

(** The loop of [encode] builds the binary string of the bytes. *)
Lemma encode_binary (bytes : list byte) (n : nat) :
(n <= length bytes)%nat ->
for_loop n (fun i binary => (binary ++ fromCharCode (bytes !! i))%string) EmptyString
= string_of_list_ascii (map ascii_of_byte (take n bytes)).
Proof.
induction n as [|n IH]; intros Hn.
- reflexivity.
- rewrite for_loop_S, IH by lia.
  destruct (lookup_lt_is_Some_2 bytes n ltac:(lia)) as [b Hb].
  rewrite (take_S_r _ _ _ Hb), Hb, map_app. cbn [map].
  rewrite string_of_list_ascii_snoc. reflexivity.
Qed.

(** The loop of [decode] fills the array with the code units. *)
Lemma decode_bytes (s : string) (n : nat) :
(n <= String.length s)%nat ->
for_loop n (fun i bytes => <[i := byte_of_Z (ToUint8 (charCodeAt s i))]> bytes)
  (Uint8Array_new (String.length s))
= map byte_of_ascii (take n (list_ascii_of_string s)) ++ replicate (String.length s - n) x00.
Proof.
induction n as [|n IH]; intros Hn.
- cbn. rewrite Nat.sub_0_r. reflexivity.
- rewrite for_loop_S, IH by lia.
  destruct (lookup_lt_is_Some_2 (list_ascii_of_string s) n) as [c Hc].
  { rewrite length_list_ascii. lia. }
  unfold charCodeAt. rewrite get_list_ascii, Hc, ToUint8_charCode.
  rewrite (take_S_r _ _ _ Hc), map_app, <- app_assoc. cbn [map app].
  rewrite insert_app_r_alt; rewrite length_map, length_take, length_list_ascii;
    [|lia].
  replace (n - n `min` String.length s)%nat with 0%nat by lia.
  replace (String.length s - n)%nat with (S (String.length s - S n)) by lia.
  reflexivity.
Qed.

(** C4. For every byte sequence, the empty one and those holding every byte
  value included, decoding the encoded text gives the bytes back:
  [decode (encode b)] returns [b]. *)
Theorem decode_encode (b : list byte) : decode (encode b) = Normal b.
Proof.
unfold decode, encode.
rewrite encode_binary by lia. rewrite firstn_all.
rewrite atob_btoa. cbn [mbind completion_bind bind].
rewrite decode_bytes by lia.
rewrite <- length_list_ascii, firstn_all, Nat.sub_diag, app_nil_r.
rewrite list_ascii_of_string_of_list_ascii, map_map.
f_equal. rewrite <- (map_id b) at 2. apply map_ext. intros x. apply byte_of_ascii_of_byte.
Qed.


(** ** The container serializer *)

Section Wav.
Local Open Scope Z_scope.

Lemma byte_of_Z_mod (a b : Z) : a mod 256 = b mod 256 -> byte_of_Z a = byte_of_Z b.
Proof. unfold byte_of_Z. intros ->. reflexivity. Qed.

Lemma byte_of_Z_byte (b : byte) : byte_of_Z (ToUint8 (int (Z.of_N (Byte.to_N b)))) = b.
Proof. destruct b; reflexivity. Qed.

Lemma truncate_inject_Z (z : Z) : truncate (inject_Z z) = z.
Proof. unfold truncate. cbn. apply Z.quot_1_r. Qed.

(** The byte at each position of a 32-bit or 16-bit store is the byte of
    the integer part of the value: the reduction modulo the width leaves
    it unchanged. *)
Lemma uint32_byte0 (q : Q) : byte_of_Z (ToUint32 (Fin q)) = byte_of_Z (truncate q).
Proof.
  apply byte_of_Z_mod. unfold ToUint32. Z.to_euclidean_division_equations; lia.
Qed.

Lemma uint32_byte (q : Q) (d : Z) :
  d = 256 \/ d = 65536 \/ d = 16777216 ->
  byte_of_Z (ToUint32 (Fin q) / d) = byte_of_Z (truncate q / d).
Proof.
  intros Hd. apply byte_of_Z_mod. unfold ToUint32.
  destruct Hd as [-> | [-> | ->]]; Z.to_euclidean_division_equations; lia.
Qed.

Lemma uint16_byte0 (q : Q) : byte_of_Z (ToUint16 (Fin q)) = byte_of_Z (truncate q).
Proof.
  apply byte_of_Z_mod. unfold ToUint16. Z.to_euclidean_division_equations; lia.
Qed.

Lemma uint16_byte (q : Q) :
  byte_of_Z (ToUint16 (Fin q) / 256) = byte_of_Z (truncate q / 256).
Proof.
  apply byte_of_Z_mod. unfold ToUint16. Z.to_euclidean_division_equations; lia.
Qed.

Lemma truncate_byteRate (sampleRate numChannels bitsPerSample : Z) :
  truncate (inject_Z sampleRate * inject_Z numChannels * (inject_Z bitsPerSample / 8))
  = sampleRate * numChannels * bitsPerSample ÷ 8.
Proof.
  unfold truncate. cbn. rewrite Z.mul_1_r. reflexivity.
Qed.

Lemma truncate_blockAlign (numChannels bitsPerSample : Z) :
  truncate (inject_Z numChannels * (inject_Z bitsPerSample / 8))
  = numChannels * bitsPerSample ÷ 8.
Proof.
  unfold truncate. cbn. rewrite Z.mul_1_r. reflexivity.
Qed.

(** The copy loop writes the payload after the 44 bytes already there. *)
Lemma copy_payload (pcm view : list byte) (k : nat) :
  length view = (44 + length pcm)%nat ->
  (k <= length pcm)%nat ->
  for_loop_c k (fun i view =>
      setUint8 view (44 + i)
        (match pcm !! i with
         | Some b => int (Z.of_N (Byte.to_N b))
         | None => NaN
         end)) view
  = Normal (take 44 view ++ take k pcm ++ drop (44 + k) view).
Proof.
  intros Hlen. induction k as [|k IH]; intros Hk.
  - unfold for_loop_c. cbn [seq fold_left].
    rewrite Nat.add_0_r, take_0, app_nil_l, take_drop. reflexivity.
  - rewrite for_loop_c_S, IH by lia. cbn [bind].
    destruct (lookup_lt_is_Some_2 pcm k ltac:(lia)) as [b Hb].
    destruct (lookup_lt_is_Some_2 view (44 + k) ltac:(lia)) as [z Hz].
    rewrite Hb. unfold setUint8.
    rewrite !length_app, !length_take, length_drop.
    replace (44 + k + 1 <=? 44 `min` length view + (k `min` length pcm + (length view - (44 + k))))%nat
      with true by (symmetry; apply Nat.leb_le; lia).
    rewrite byte_of_Z_byte. f_equal.
    rewrite (take_S_r _ _ _ Hb), (drop_S _ _ _ Hz), <- !app_assoc.
    rewrite insert_app_r_alt by (rewrite length_take; lia).
    rewrite insert_app_r_alt by (rewrite !length_take; lia).
    rewrite !length_take.
    replace (44 + k - 44 `min` length view - k `min` length pcm)%nat with 0%nat by lia.
    reflexivity.
Qed.

Local Arguments byte_of_Z : simpl never.
Local Arguments ToUint8 : simpl never.
Local Arguments ToUint32 : simpl never.
Local Arguments ToUint16 : simpl never.

Lemma createWavBlob_header (pcmData : list byte) (sampleRate numChannels bitsPerSample : Z) :
  createWavBlob pcmData sampleRate numChannels bitsPerSample
  = Normal {| blob_bytes :=
                wav_header (Z.of_nat (length pcmData)) sampleRate numChannels bitsPerSample
                ++ pcmData;
              blob_type := "audio/wav" |}.
Proof.
  unfold createWavBlob.
  cbn -[Z.add Z.mul Z.of_nat Qmult Qdiv inject_Z].
  lazymatch goal with
  | |- context [for_loop_c ?n ?f ?v] =>
      change (for_loop_c n f v)
        with (for_loop_c n (fun i view =>
                setUint8 view (44 + i)
                  (match pcmData !! i with
                   | Some b => int (Z.of_N (Byte.to_N b))
                   | None => NaN
                   end)) v)
  end.
  rewrite copy_payload; [|cbn; rewrite length_replicate; reflexivity|lia].
  cbn -[Z.add Z.mul Z.of_nat Qmult Qdiv inject_Z].
  unfold int.
  rewrite !uint32_byte0, !uint16_byte0, !uint16_byte, !uint32_byte by auto.
  rewrite truncate_byteRate, truncate_blockAlign, !truncate_inject_Z.
  rewrite take_0, firstn_all, drop_ge, app_nil_r by (rewrite length_replicate; lia).
  reflexivity.
Qed.

(** C7. For every PCM payload the serializer returns exactly the 44 header
    bytes of section 4.3, fields little-endian, followed by the payload
    verbatim.  On a 10-byte payload at 24000 Hz, 1 channel, 16 bits it
    returns 54 bytes: bytes 0-3 "RIFF", 8-11 "WAVE", 20-21 the value 1,
    22-23 the value 1, 24-27 the value 24000, 36-39 "data", 40-43 the
    value 10. *)
Theorem createWavBlob_layout :
  (forall (pcmData : list byte) (sampleRate numChannels bitsPerSample : Z),
      let header :=
        wav_header (Z.of_nat (length pcmData)) sampleRate numChannels bitsPerSample in
      length header = 44%nat
      /\ createWavBlob pcmData sampleRate numChannels bitsPerSample
         = Normal {| blob_bytes := header ++ pcmData; blob_type := "audio/wav" |})
  /\ (forall pcmData : list byte,
        length pcmData = 10%nat ->
        exists out : list byte,
          createWavBlob pcmData 24000 1 16
          = Normal {| blob_bytes := out; blob_type := "audio/wav" |}
          /\ length out = 54%nat
          /\ slice 0 4 out = tag "RIFF"
          /\ slice 8 4 out = tag "WAVE"
          /\ uint_le (slice 20 2 out) = 1
          /\ uint_le (slice 22 2 out) = 1
          /\ uint_le (slice 24 4 out) = 24000
          /\ slice 36 4 out = tag "data"
          /\ uint_le (slice 40 4 out) = 10
          /\ drop 44 out = pcmData).
Proof.
  split.
  - intros pcmData sampleRate numChannels bitsPerSample header.
    split; [reflexivity|apply createWavBlob_header].
  - intros pcmData Hlen. eexists. split; [apply createWavBlob_header|].
    rewrite Hlen. rewrite length_app, Hlen.
    repeat split; reflexivity.
Qed.

Lemma createWavBlob_layout_witness :
  exists out : list byte,
    createWavBlob [x01; x02; x03; x04; x05; x06; x07; x08; x09; x0a] 24000 1 16
    = Normal {| blob_bytes := out; blob_type := "audio/wav" |}
    /\ length out = 54%nat
    /\ uint_le (slice 24 4 out) = 24000.
Proof.
  destruct (proj2 createWavBlob_layout
              [x01; x02; x03; x04; x05; x06; x07; x08; x09; x0a] eq_refl)
    as (out & Hout & Hlen & _ & _ & _ & _ & Hrate & _).
  exists out. repeat split; assumption.
Defined.
End Wav.

(** ** The sample converter *)

Section TypedArrays.
Local Open Scope Z_scope.

Lemma to_N_byte_of_N (n : N) : Byte.to_N (byte_of_N n) = (n mod 256)%N.
Proof.
  unfold byte_of_N. destruct (Byte.of_N (n mod 256)) as [b|] eqn:E.
  - apply Byte.to_of_N. exact E.
  - apply Byte.of_N_None_iff in E. pose proof (N.mod_upper_bound n 256). lia.
Qed.

Lemma to_N_byte_of_Z (z : Z) : Z.of_N (Byte.to_N (byte_of_Z z)) = z mod 256.
Proof.
  unfold byte_of_Z. rewrite to_N_byte_of_N.
  pose proof (Z.mod_pos_bound z 256). rewrite N.mod_small; lia.
Qed.

Lemma int16_of_le16 (z : Z) :
  int16_range z -> int16_of_bytes (byte_of_Z z) (byte_of_Z (z / 256)) = z.
Proof.
  unfold int16_range, int16_of_bytes. intros Hz. rewrite !to_N_byte_of_Z.
  destruct (Z.leb_spec 32768 (z mod 256 + 256 * ((z / 256) mod 256)));
    Z.to_euclidean_division_equations; lia.
Qed.

Lemma ToInt16_range (x : number) : int16_range (ToInt16 x).
Proof.
  unfold int16_range, ToInt16.
  assert (0 <= ToUint16 x < 65536).
  { destruct x; cbn; [apply Z.mod_pos_bound|..]; lia. }
  destruct (Z.leb_spec 32768 (ToUint16 x)); lia.
Qed.

Lemma int16_elements_bytes (zs : list Z) :
  Forall int16_range zs -> int16_elements (Int16Array_bytes zs) = zs.
Proof.
  induction 1 as [|z zs Hz _ IH]; [reflexivity|].
  cbn. rewrite (int16_of_le16 z Hz). f_equal. exact IH.
Qed.

Lemma length_Int16Array_bytes (zs : list Z) :
  length (Int16Array_bytes zs) = (2 * length zs)%nat.
Proof. induction zs as [|z zs IH]; cbn; [reflexivity|]. unfold Int16Array_bytes in IH. lia. Qed.

Lemma int16_elements_lookup (data : list byte) (k : nat) :
  int16_elements data !! k = int16_at data k.
Proof.
  revert k. induction data as [|a|a b r IH] using (@list_ind2 byte); intros k.
  - destruct k; reflexivity.
  - destruct k; reflexivity.
  - destruct k as [|k]; [reflexivity|].
    cbn [int16_elements]. cbn [lookup list_lookup]. rewrite IH. unfold int16_at.
    replace (2 * S k)%nat with (S (S (2 * k))) by lia.
    replace (S (S (2 * k)) + 1)%nat with (S (S (2 * k + 1))) by lia.
    reflexivity.
Qed.

Lemma length_int16_elements (data : list byte) :
  length (int16_elements data) = (length data / 2)%nat.
Proof.
  induction data as [|a|a b r IH] using (@list_ind2 byte); try reflexivity.
  cbn [int16_elements length]. rewrite IH.
  change (S (S (length r))) with (2 + length r)%nat.
  replace (2 + length r)%nat with (length r + 1 * 2)%nat by lia.
  rewrite Nat.div_add by lia. lia.
Qed.
End TypedArrays.

Section ChannelLoops.

(** Filling an array by index: positions below the bound and inside the
    array hold the new values, a write past the end changes nothing. *)
Lemma fill_length {A : Type} (f : nat -> A) (n : nat) (l : list A) :
  length (for_loop n (fun i l => <[i := f i]> l) l) = length l.
Proof.
  induction n as [|n IH]; [reflexivity|].
  rewrite for_loop_S, length_insert. exact IH.
Qed.

Lemma fill_lookup {A : Type} (f : nat -> A) (n : nat) (l : list A) (j : nat) :
  (j < length l)%nat -> (j < n)%nat ->
  for_loop n (fun i l => <[i := f i]> l) l !! j = Some (f j).
Proof.
  intros Hj. induction n as [|n IH]; intros Hn; [lia|].
  rewrite for_loop_S.
  destruct (decide (n = j)) as [->|Hne].
  - apply list_lookup_insert_eq. rewrite fill_length. exact Hj.
  - rewrite list_lookup_insert_ne by exact Hne. apply IH. lia.
Qed.

Lemma setChannelData_fields (b : AudioBuffer) (channel i : nat) (v : number) :
  buf_sampleRate (setChannelData b channel i v) = buf_sampleRate b
  /\ buf_length (setChannelData b channel i v) = buf_length b.
Proof. split; reflexivity. Qed.

(** The inner loop rewrites one channel and leaves the others alone. *)
Lemma inner_loop (f : nat -> number) (channel n : nat) (b : AudioBuffer)
    (channelData : list number) :
  buf_channels b !! channel = Some channelData ->
  for_loop n (fun i b => setChannelData b channel i (f i)) b
  = {| buf_sampleRate := buf_sampleRate b;
       buf_length := buf_length b;
       buf_channels :=
         <[channel := for_loop n (fun i l => <[i := f i]> l) channelData]> (buf_channels b) |}.
Proof.
  intros Hch. induction n as [|n IH].
  - unfold for_loop. cbn [seq fold_left]. rewrite (list_insert_id _ _ _ Hch).
    destruct b; reflexivity.
  - rewrite !for_loop_S, IH. unfold setChannelData. cbn [buf_channels buf_sampleRate buf_length].
    rewrite list_lookup_insert_eq by (apply lookup_lt_Some in Hch; exact Hch).
    rewrite list_insert_insert_eq. reflexivity.
Qed.

(** The two loops of [decodeAudioData] on a buffer of [numChannels]
    zero-filled channels. *)
Lemma outer_loop (f : nat -> nat -> number) (sampleRate : Z) (len n numChannels k : nat) :
  (k <= numChannels)%nat ->
  for_loop k (fun channel b =>
      for_loop n (fun i b => setChannelData b channel i (f channel i)) b)
    {| buf_sampleRate := sampleRate; buf_length := len;
       buf_channels := replicate numChannels (replicate len (Fin 0)) |}
  = {| buf_sampleRate := sampleRate; buf_length := len;
       buf_channels :=
         map (fun channel =>
                for_loop n (fun i l => <[i := f channel i]> l) (replicate len (Fin 0)))
             (seq 0 k)
         ++ replicate (numChannels - k) (replicate len (Fin 0)) |}.
Proof.
  induction k as [|k IH]; intros Hk.
  - unfold for_loop. cbn [seq fold_left map app]. rewrite Nat.sub_0_r. reflexivity.
  - rewrite for_loop_S, IH by lia.
    assert (Hlen : length (map (fun channel =>
                for_loop n (fun i l => <[i := f channel i]> l) (replicate len (Fin 0)))
             (seq 0 k)) = k) by (rewrite length_map, length_seq; reflexivity).
    erewrite inner_loop; cbn [buf_channels buf_sampleRate buf_length].
    2:{ rewrite lookup_app_r by lia. rewrite Hlen, Nat.sub_diag.
        apply lookup_replicate_2. lia. }
    f_equal.
    rewrite insert_app_r_alt by lia. rewrite Hlen, Nat.sub_diag.
    replace (numChannels - k)%nat with (S (numChannels - S k)) by lia.
    cbn [replicate insert list_insert].
    rewrite seq_S, map_app, <- app_assoc. reflexivity.
Qed.
End ChannelLoops.

Section DecodeAudioData.
Local Open Scope Z_scope.

Lemma frame_count (L nc : nat) :
  (1 <= nc)%nat -> Z.of_nat (L / nc) < 4294967296 ->
  Z.to_nat (ToUint32 (length_div L nc)) = (L / nc)%nat.
Proof.
  intros Hnc Hlen. unfold length_div. destruct nc as [|nc']; [lia|].
  set (nc := S nc') in *.
  unfold ToUint32, truncate. cbn [Qnum Qden].
  replace (Z.pos (Pos.of_nat nc)) with (Z.of_nat nc) by lia.
  rewrite Z.quot_div_nonneg by lia. rewrite <- Nat2Z.inj_div.
  rewrite Z.mod_small by lia. lia.
Qed.

Lemma frame_iterations (L nc : nat) :
  (1 <= nc)%nat -> (L / nc <= iterations (length_div L nc))%nat.
Proof.
  intros Hnc. unfold length_div. destruct nc as [|nc']; [lia|].
  set (nc := S nc') in *.
  unfold iterations, Qceiling, Qfloor. cbn [Qopp Qnum Qden].
  replace (Z.pos (Pos.of_nat nc)) with (Z.of_nat nc) by lia.
  assert (Z.of_nat (L / nc) <= - (- Z.of_nat L / Z.of_nat nc)).
  { rewrite Nat2Z.inj_div. Z.to_euclidean_division_equations. nia. }
  lia.
Qed.

Lemma Int16Array_of_buffer_odd (data : list byte) :
  Nat.even (length data) = false -> Int16Array_of_buffer data = Throw RangeError.
Proof. unfold Int16Array_of_buffer. intros ->. reflexivity. Qed.

(** What [decodeAudioData] returns on an even number of bytes holding at
    least one frame. *)
Lemma decodeAudioData_even (data : list byte) (sampleRate : Z) (numChannels : nat) :
  Nat.even (length data) = true ->
  (1 <= numChannels <= 32)%nat ->
  8000 <= sampleRate <= 96000 ->
  (numChannels <= length data / 2)%nat ->
  Z.of_nat (length data / 2 / numChannels) < 4294967296 ->
  decodeAudioData data sampleRate numChannels
  = Normal {| buf_sampleRate := sampleRate;
              buf_length := length data / 2 / numChannels;
              buf_channels := deinterleaved data numChannels |}.
Proof.
  intros Heven Hnc Hrate Hframe Hlen.
  unfold decodeAudioData, Int16Array_of_buffer. rewrite Heven.
  cbn [mbind completion_bind bind]. rewrite length_int16_elements.
  set (L := (length data / 2)%nat) in *.
  unfold createBuffer. rewrite (frame_count L numChannels) by (lia || exact Hlen).
  assert (Hpos : (1 <= L / numChannels)%nat).
  { apply Nat.div_le_lower_bound; lia. }
  replace ((1 <=? numChannels)%nat && (numChannels <=? 32)%nat
           && (1 <=? L / numChannels)%nat && (8000 <=? sampleRate)
           && (sampleRate <=? 96000)) with true.
  2:{ symmetry. rewrite !andb_true_iff, !Nat.leb_le, !Z.leb_le. lia. }
  cbn [mbind completion_bind bind]. f_equal.
  rewrite (outer_loop
             (fun channel i =>
                sample_of_int16 (int16_elements data !! (i * numChannels + channel)%nat)))
    by lia.
  rewrite Nat.sub_diag. cbn [replicate]. rewrite app_nil_r. f_equal.
  unfold deinterleaved. fold L. apply map_ext. intros c.
  apply list_eq. intros j.
  destruct (decide (j < L / numChannels)%nat) as [Hj|Hj].
  - rewrite fill_lookup.
    + rewrite list_lookup_fmap, lookup_seq_lt by exact Hj. cbn.
      rewrite int16_elements_lookup. destruct (int16_at data _); reflexivity.
    + rewrite length_replicate. exact Hj.
    + pose proof (frame_iterations L numChannels ltac:(lia)). lia.
  - rewrite !lookup_ge_None_2; [reflexivity| |].
    + rewrite length_map, length_seq. lia.
    + rewrite fill_length, length_replicate. lia.
Qed.

(** A buffer that [decodeAudioData] returns has the rate asked for, a
    rate the platform supports, and at least one frame. *)
Lemma decodeAudioData_fields (data : list byte) (sampleRate : Z) (numChannels : nat)
    (buffer : AudioBuffer) :
  decodeAudioData data sampleRate numChannels = Normal buffer ->
  buf_sampleRate buffer = sampleRate /\ 8000 <= sampleRate /\ (1 <= buf_length buffer)%nat.
Proof.
  unfold decodeAudioData. intros H.
  destruct (Int16Array_of_buffer data) as [ints|e]; [|discriminate].
  cbn [mbind completion_bind bind] in H. unfold createBuffer in H.
  match type of H with
  | context [if ?c then _ else _] => destruct c eqn:Hc; [|discriminate]
  end.
  cbn [mbind completion_bind bind] in H.
  rewrite !andb_true_iff, !Nat.leb_le, !Z.leb_le in Hc.
  destruct Hc as ((((_ & _) & Hlen) & Hrate) & _).
  inversion H as [Hb]. clear H Hb.
  apply (for_loop_invariant
           (fun b => buf_sampleRate b = sampleRate /\ 8000 <= sampleRate
                     /\ (1 <= buf_length b)%nat)).
  - intros channel b Hb.
    apply (for_loop_invariant
             (fun b => buf_sampleRate b = sampleRate /\ 8000 <= sampleRate
                       /\ (1 <= buf_length b)%nat)); [|exact Hb].
    intros i b' Hb'. exact Hb'.
  - cbn [buf_sampleRate buf_length]. auto.
Qed.

Lemma decodeAudioData_odd (data : list byte) (sampleRate : Z) (numChannels : nat) :
  Nat.even (length data) = false ->
  decodeAudioData data sampleRate numChannels = Throw RangeError.
Proof.
  intros Hodd. unfold decodeAudioData. rewrite (Int16Array_of_buffer_odd _ Hodd).
  reflexivity.
Qed.
End DecodeAudioData.

Section Quantization.
Local Open Scope Z_scope.

(** [truncate] rounds toward zero: the integer part lies between zero and
    the number, less than one away from it. *)
Lemma truncate_nonneg (q : Q) :
  (0 <= q)%Q ->
  (0 <= inject_Z (truncate q) /\ inject_Z (truncate q) <= q
   /\ q < inject_Z (truncate q) + 1)%Q.
Proof.
  destruct q as [n d]. unfold truncate, Qle, Qlt. cbn. intros Hq.
  pose proof (Z.quot_rem' n (Z.pos d)) as E.
  pose proof (Z.rem_bound_pos n (Z.pos d) ltac:(lia) ltac:(lia)).
  assert (0 <= n ÷ Z.pos d) by (apply Z.quot_pos; lia).
  nia.
Qed.

Lemma truncate_nonpos (q : Q) :
  (q <= 0)%Q ->
  (inject_Z (truncate q) <= 0 /\ q <= inject_Z (truncate q)
   /\ inject_Z (truncate q) - 1 < q)%Q.
Proof.
  destruct q as [n d]. unfold truncate, Qle, Qlt. cbn. intros Hq.
  pose proof (Z.quot_rem' n (Z.pos d)) as E.
  pose proof (Z.rem_bound_pos_neg n (Z.pos d) ltac:(lia) ltac:(lia)).
  assert (n ÷ Z.pos d <= 0) by (apply Z.quot_le_upper_bound; lia).
  nia.
Qed.

Lemma truncate_toward_zero (q : Q) :
  (Qabs (inject_Z (truncate q)) <= Qabs q /\ Qabs q < Qabs (inject_Z (truncate q)) + 1)%Q.
Proof.
  apply (Qabs_case q); intros Hq.
  - destruct (truncate_nonneg q Hq) as (H0 & H1 & H2).
    apply (Qabs_case (inject_Z (truncate q))); intros Ht; lra.
  - destruct (truncate_nonpos q Hq) as (H0 & H1 & H2).
    apply (Qabs_case (inject_Z (truncate q))); intros Ht; lra.
Qed.
End Quantization.

(** ** Properties of the sample converter *)

Section SampleConverter.
Local Open Scope Z_scope.

Lemma floatToInt16_cons (x : number) (inputData : list number) :
  floatToInt16 (x :: inputData)
  = le16 (ToInt16 (number_mul x 32768)) ++ floatToInt16 inputData.
Proof. reflexivity. Qed.

Lemma scaled_range (q : Q) :
  (-1 <= q < 1)%Q -> int16_range (truncate (q * 32768)).
Proof.
  intros [Hlo Hhi]. unfold int16_range.
  destruct (Qlt_le_dec q 0) as [Hq|Hq].
  - destruct (truncate_nonpos (q * 32768) ltac:(lra)) as (H0 & H1 & H2).
    assert (Ha : (inject_Z (-32768) <= inject_Z (truncate (q * 32768)))%Q)
      by (change (inject_Z (-32768)) with (-32768)%Q; lra).
    assert (Hb : (inject_Z (truncate (q * 32768)) <= inject_Z 0)%Q)
      by (change (inject_Z 0) with 0%Q; lra).
    rewrite <- Zle_Qle in Ha, Hb. lia.
  - destruct (truncate_nonneg (q * 32768) ltac:(lra)) as (H0 & H1 & H2).
    assert (Ha : (inject_Z 0 <= inject_Z (truncate (q * 32768)))%Q)
      by (change (inject_Z 0) with 0%Q; lra).
    assert (Hb : (inject_Z (truncate (q * 32768)) < inject_Z 32768)%Q)
      by (change (inject_Z 32768) with 32768%Q; lra).
    rewrite <- Zle_Qle in Ha. rewrite <- Zlt_Qlt in Hb. lia.
Qed.

Lemma ToInt16_small (q : Q) :
  int16_range (truncate q) -> ToInt16 (Fin q) = truncate q.
Proof.
  unfold int16_range, ToInt16, ToUint16. intros Ht.
  destruct (Z.leb_spec 32768 (truncate q mod 65536));
    Z.to_euclidean_division_equations; lia.
Qed.

Lemma ToInt16_wraps (q : Q) : (ToInt16 (Fin q) - truncate q) mod 65536 = 0.
Proof.
  unfold ToInt16, ToUint16.
  destruct (Z.leb_spec 32768 (truncate q mod 65536));
    Z.to_euclidean_division_equations; lia.
Qed.

Lemma stored_sample_ToInt16 (x : number) :
  stored_sample x (ToInt16 (number_mul x 32768)).
Proof.
  split; [apply ToInt16_range|].
  destruct x as [q| | |]; try reflexivity.
  cbn [number_mul]. cbv zeta. split; [apply truncate_toward_zero|].
  split; [apply ToInt16_wraps|].
  intros Hq. apply ToInt16_small, scaled_range, Hq.
Qed.

Lemma stored_samples (inputData : list number) :
  Forall2 stored_sample inputData
    (Int16Array_of_numbers (map (fun f => number_mul f 32768) inputData)).
Proof.
  induction inputData as [|x l IH]; cbn; constructor; auto.
  apply stored_sample_ToInt16.
Qed.

Lemma stored_in_range (xs : list number) (vs : list Z) :
  Forall2 stored_sample xs vs -> Forall int16_range vs.
Proof. induction 1 as [|x v xs vs [Hv _] _ IH]; constructor; auto. Qed.

(** C6 (amended). The capture path scales each sample by 32768, keeps the
    integer part (rounding toward zero) and stores it little-endian as a
    signed 16-bit integer, two bytes per sample; it never fails.  A sample
    in [-1, 1) is stored as that integer part.  Outside that range the
    integer part is reduced modulo 2^16 into the signed 16-bit range (it
    wraps around, it is not clamped); [NaN] and the infinities are stored
    as 0. *)
Theorem floatToInt16_stores (inputData : list number) :
  exists ints : list Z,
    floatToInt16 inputData = flat_map le16 ints
    /\ int16_elements (floatToInt16 inputData) = ints
    /\ length (floatToInt16 inputData) = (2 * length inputData)%nat
    /\ Forall2 stored_sample inputData ints.
Proof.
  exists (Int16Array_of_numbers (map (fun f => number_mul f 32768) inputData)).
  pose proof (stored_samples inputData) as H.
  split; [reflexivity|]. split; [|split; [|exact H]].
  - apply int16_elements_bytes. eapply stored_in_range, H.
  - unfold floatToInt16. rewrite length_Int16Array_bytes.
    unfold Int16Array_of_numbers. rewrite !length_map. reflexivity.
Qed.

Lemma floatToInt16_stores_witness :
  exists v : Z,
    int16_elements (floatToInt16 [Fin (1 # 2)]) = [v] /\ v = 16384.
Proof.
  destruct (floatToInt16_stores [Fin (1 # 2)]) as (ints & _ & Hints & _ & Hstored).
  destruct ints as [|v [|w ints]];
    [exfalso; inversion Hstored
    | | exfalso; inversion Hstored as [|? ? ? ? _ Hrest]; inversion Hrest].
  exists v. split; [exact Hints|].
  assert (Hv : stored_sample (Fin (1 # 2)) v) by (inversion Hstored; assumption).
  destruct Hv as (_ & _ & _ & Hin). rewrite Hin; [reflexivity|].
  split; unfold Qle, Qlt; cbn; lia.
Defined.

(** C6, as stated, fails: the sample 1.5 lies outside [-1, 1]; clamping
    would store 32767, the code stores -16384. *)
Lemma floatToInt16_not_clamped :
  ~ (-1 <= 3 # 2 <= 1)%Q
  /\ int16_elements (floatToInt16 [Fin (3 # 2)]) = [-16384]
  /\ int16_elements (floatToInt16_clamped [3 # 2]) = [32767]
  /\ floatToInt16 [Fin (3 # 2)] <> floatToInt16_clamped [3 # 2].
Proof.
  split; [|split; [|split]].
  - intros [_ H]. revert H. unfold Qle. cbn. lia.
  - reflexivity.
  - reflexivity.
  - intros H. discriminate H.
Qed.

(** *** De-interleaving *)

Lemma even_mod2 (n : nat) : Nat.even n = (n mod 2 =? 0)%nat.
Proof.
  rewrite (Nat.div_mod_eq n 2) at 1.
  rewrite Nat.add_comm, Nat.even_add_mul_2.
  pose proof (Nat.mod_upper_bound n 2 ltac:(lia)).
  destruct (n mod 2)%nat as [|[|?]]; try reflexivity. lia.
Qed.

(** C8 (amended). [decodeAudioData] fails, with the [RangeError] of the
    16-bit view, on every input whose byte length is odd.  On an even
    number of bytes holding at least one frame of 1 to 32 channels it
    returns one float sequence per channel, sample [i] of channel [c] being
    the 16-bit sample [i * numChannels + c] divided by 32768; the samples
    of an incomplete last frame are dropped without an error. *)
Theorem decodeAudioData_deinterleaves (data : list byte) (sampleRate : Z) (numChannels : nat) :
  ((length data mod 2)%nat <> 0%nat ->
   decodeAudioData data sampleRate numChannels = Throw RangeError)
  /\ ((length data mod 2)%nat = 0%nat ->
      (1 <= numChannels <= 32)%nat ->
      8000 <= sampleRate <= 96000 ->
      (numChannels <= length data / 2)%nat ->
      Z.of_nat (length data) < 4294967296 ->
      decodeAudioData data sampleRate numChannels
      = Normal {| buf_sampleRate := sampleRate;
                  buf_length := length data / 2 / numChannels;
                  buf_channels := deinterleaved data numChannels |}).
Proof.
  split.
  - intros Hodd. apply decodeAudioData_odd. rewrite even_mod2.
    apply Nat.eqb_neq. exact Hodd.
  - intros Heven Hnc Hrate Hframe Hlen. apply decodeAudioData_even; auto.
    + rewrite even_mod2. apply Nat.eqb_eq. exact Heven.
    + assert (length data / 2 / numChannels <= length data)%nat.
      { etransitivity; [apply Nat.Div0.div_le_upper_bound with (q := (length data / 2)%nat)|].
        - nia.
        - apply Nat.Div0.div_le_upper_bound. lia. }
      lia.
Qed.

Lemma decodeAudioData_deinterleaves_witness :
  decodeAudioData [x00; x40; x00; x80; xff; x7f; x01; x00] 24000 2
  = Normal {| buf_sampleRate := 24000;
              buf_length := 2;
              buf_channels := [[Fin (inject_Z 16384 / 32768); Fin (inject_Z 32767 / 32768)];
                               [Fin (inject_Z (-32768) / 32768); Fin (inject_Z 1 / 32768)]] |}
  /\ decodeAudioData [x00; x40; x00] 24000 1 = Throw RangeError.
Proof.
  split.
  - apply (proj2 (decodeAudioData_deinterleaves
                    [x00; x40; x00; x80; xff; x7f; x01; x00] 24000 2)).
    + reflexivity.
    + cbn; lia.
    + lia.
    + cbn; lia.
    + cbn; lia.
  - apply (proj1 (decodeAudioData_deinterleaves [x00; x40; x00] 24000 1)).
    cbn. lia.
Defined.

(** C8, as stated, fails: six bytes are not a multiple of 2 × 2, and the
    call returns a buffer (the third sample is dropped). *)
Lemma decodeAudioData_partial_frame :
  (length [x00; x40; x00; x80; xff; x7f] mod (2 * 2))%nat <> 0%nat
  /\ decodeAudioData [x00; x40; x00; x80; xff; x7f] 24000 2
     = Normal {| buf_sampleRate := 24000;
                 buf_length := 1;
                 buf_channels := [[Fin (16384 # 32768)]; [Fin (-32768 # 32768)]] |}.
Proof. split; [cbn; lia|reflexivity]. Qed.

(** *** The round trip *)

Lemma within_step_scaled (q : Q) :
  (-1 <= q < 1)%Q ->
  within_step q (Fin (inject_Z (ToInt16 (Fin (q * 32768))) / 32768)).
Proof.
  intros Hq. eexists. split; [reflexivity|].
  rewrite (ToInt16_small _ (scaled_range q Hq)).
  apply Qabs_Qle_condition.
  unfold Qdiv. change (/ 32768)%Q with (1 # 32768)%Q.
  destruct (Qlt_le_dec q 0) as [Hn|Hn].
  - destruct (truncate_nonpos (q * 32768) ltac:(lra)) as (H0 & H1 & H2). lra.
  - destruct (truncate_nonneg (q * 32768) ltac:(lra)) as (H0 & H1 & H2). lra.
Qed.

Lemma pcm_roundtrip_value (s : list Q) :
  s <> [] -> Z.of_nat (length s) < 2147483648 ->
  pcm_roundtrip s
  = Normal [map (fun q => Fin (inject_Z (ToInt16 (Fin (q * 32768))) / 32768)) s].
Proof.
  intros Hne Hlen. unfold pcm_roundtrip.
  set (ints := Int16Array_of_numbers (map (fun f => number_mul f 32768) (map Fin s))).
  assert (Hints : ints = map (fun q => ToInt16 (Fin (q * 32768))) s).
  { subst ints. unfold Int16Array_of_numbers. rewrite !map_map. reflexivity. }
  assert (Hrange : Forall int16_range ints).
  { rewrite Hints. apply Forall_map. apply Forall_forall. intros q _. apply ToInt16_range. }
  assert (Hbytes : length (floatToInt16 (map Fin s)) = (2 * length s)%nat).
  { unfold floatToInt16. fold ints. rewrite length_Int16Array_bytes, Hints, length_map.
    reflexivity. }
  assert (Hhalf : (length (floatToInt16 (map Fin s)) / 2 = length s)%nat).
  { rewrite Hbytes, Nat.mul_comm. apply Nat.div_mul. lia. }
  rewrite decodeAudioData_even.
  - cbn [mbind completion_bind bind buf_channels]. f_equal.
    unfold deinterleaved. rewrite Hhalf, Nat.div_1_r. cbn [seq map]. f_equal.
    apply list_eq. intros j. rewrite !list_lookup_fmap.
    destruct (decide (j < length s)%nat) as [Hj|Hj].
    + rewrite lookup_seq_lt by exact Hj. cbn [fmap option_fmap option_map Nat.add].
      rewrite Nat.mul_1_r, Nat.add_0_r, <- int16_elements_lookup.
      unfold floatToInt16. fold ints. rewrite (int16_elements_bytes _ Hrange).
      rewrite Hints, list_lookup_fmap.
      destruct (lookup_lt_is_Some_2 s j Hj) as [q ->]. reflexivity.
    + rewrite lookup_seq_ge by lia. rewrite lookup_ge_None_2 by lia. reflexivity.
  - rewrite Hbytes. apply Nat.even_mul.
  - lia.
  - lia.
  - rewrite Hhalf. destruct s; [congruence|cbn; lia].
  - rewrite Hhalf, Nat.div_1_r. lia.
Qed.

(** C5 (amended). For every non-empty sample sequence whose values all lie
    in [-1, 1), converting to 16-bit PCM bytes and back to floats returns a
    sequence of the same length in which each sample differs from the
    original by at most 1/32768. *)
Theorem pcm_roundtrip_within_step (s : list Q) :
  s <> [] ->
  Z.of_nat (length s) < 2147483648 ->
  Forall (fun q => (-1 <= q < 1)%Q) s ->
  roundtrip_within_step s.
Proof.
  intros Hne Hlen Hs. eexists. split; [apply pcm_roundtrip_value; assumption|].
  clear Hne Hlen. induction Hs as [|q s Hq _ IH]; cbn [map]; constructor.
  - apply within_step_scaled, Hq.
  - exact IH.
Qed.

Lemma pcm_roundtrip_within_step_witness :
  roundtrip_within_step [(1 # 2)%Q; (-1)%Q; (32767 # 32768)%Q; (1 # 3)%Q].
Proof.
  apply pcm_roundtrip_within_step.
  - discriminate.
  - cbn. lia.
  - repeat constructor; unfold Qle, Qlt; cbn; lia.
Defined.

(** C5, as stated, fails: the sample 1 lies in [-1, 1] and comes back as
    -1, two units away; and the empty sequence does not come back at all,
    a buffer of no frames being refused. *)
Lemma pcm_roundtrip_full_scale :
  Forall (fun q => (-1 <= q <= 1)%Q) [1%Q]
  /\ pcm_roundtrip [1%Q] = Normal [[Fin (-32768 # 32768)]]
  /\ ~ roundtrip_within_step [1%Q]
  /\ pcm_roundtrip [] = Throw NotSupportedError
  /\ ~ roundtrip_within_step [].
Proof.
  split; [|split; [|split; [|split]]].
  - repeat constructor; unfold Qle; cbn; lia.
  - reflexivity.
  - intros (out & Hout & Hstep).
    assert (out = [Fin (-32768 # 32768)]) by (cbv in Hout; congruence). subst out.
    inversion Hstep as [|? ? ? ? Hw _]; subst.
    destruct Hw as (q' & Hq' & Habs). inversion Hq'; subst q'.
    revert Habs. unfold Qle. cbn. lia.
  - reflexivity.
  - intros (out & Hout & _). discriminate Hout.
Qed.
End SampleConverter.

(** ** The playback scheduler *)

Ltac transcript_cases message :=
destruct (inputTranscription message), (outputTranscription message),
  (turnComplete message).

Section Scheduler.
Local Open Scope Q_scope.

Lemma Math_max_spec (a b : Q) :
  a <= Math_max a b /\ b <= Math_max a b /\ (Math_max a b = a \/ Math_max a b = b).
Proof.
  unfold Math_max. destruct (Qle_bool a b) eqn:E.
  - apply Qle_bool_iff in E. repeat split; auto. apply Qle_refl.
  - assert (~ a <= b) by (intros H; apply Qle_bool_iff in H; congruence).
    repeat split; auto; [apply Qle_refl|]. apply Qnot_le_lt in H. apply Qlt_le_weak, H.
Qed.

Lemma Math_max_r (a b : Q) : a <= b -> Math_max a b = b.
Proof. intros H. unfold Math_max. apply Qle_bool_iff in H. rewrite H. reflexivity. Qed.

Lemma Math_max_l (a b : Q) : b < a -> Math_max a b = a.
Proof.
  intros H. unfold Math_max. destruct (Qle_bool a b) eqn:E; [|reflexivity].
  apply Qle_bool_iff in E. exfalso. apply (Qlt_not_le _ _ H E).
Qed.

Lemma scheduled_app (cs1 cs2 : list call) :
  scheduled (cs1 ++ cs2) = scheduled cs1 ++ scheduled cs2.
Proof.
  induction cs1 as [|c cs1 IH]; [reflexivity|].
  destruct c; cbn; rewrite IH; reflexivity.
Qed.

Lemma decoded_chunk_result (message : LiveServerMessage) (buffer : AudioBuffer) :
  decoded_chunk message = Some buffer ->
  exists data,
    audioData message = Some data /\ String.eqb data EmptyString = false
    /\ (bytes ← decode data; decodeAudioData bytes 24000 1) = Normal buffer.
Proof.
  unfold decoded_chunk, chunk_result. intros H.
  destruct (audioData message) as [data|]; [|discriminate].
  exists data. destruct (String.eqb data EmptyString); [discriminate|].
  destruct (bytes ← decode data; decodeAudioData bytes 24000 1) as [b|e];
    [|discriminate].
  inversion H; subst. auto.
Qed.

(** A decoded chunk holds at least one frame, so it lasts. *)
Lemma decoded_chunk_duration (message : LiveServerMessage) (buffer : AudioBuffer) :
  decoded_chunk message = Some buffer -> 0 < duration buffer.
Proof.
  intros H. destruct (decoded_chunk_result _ _ H) as (data & _ & _ & Hd).
  destruct (decode data) as [bytes|e]; [|discriminate].
  cbn [mbind completion_bind bind] in Hd.
  destruct (decodeAudioData_fields _ _ _ _ Hd) as (Hr & _ & Hl).
  unfold duration, Qlt. rewrite Hr. cbn. lia.
Qed.

(** One audio chunk, no interruption in the same message. *)
Lemma onmessage_schedules (session : LiveSession) (currentTime : Q)
    (message : LiveServerMessage) (st : Panel) (ctx : AudioContext) (buffer : AudioBuffer) :
  outputAudioContextRef st = Some ctx ->
  decoded_chunk message = Some buffer ->
  interrupted message = false ->
  exists st',
    onmessage session currentTime message st = (st', None)
    /\ calls st'
       = calls st
         ++ [SourceStart (fresh st) (Math_max (nextStartTimeRef st) currentTime) buffer]
    /\ nextStartTimeRef st'
       = Math_max (nextStartTimeRef st) currentTime + duration buffer
    /\ audioSourcesRef st' = Set_add (fresh st) (audioSourcesRef st)
    /\ fresh st' = S (fresh st)
    /\ outputAudioContextRef st' = Some ctx.
Proof.
  intros Hctx Hchunk Hint.
  destruct (decoded_chunk_result _ _ Hchunk) as (data & Hdata & Hne & Hdec).
  unfold onmessage. rewrite Hdata, Hint.
  transcript_cases message;
    cbn -[decode decodeAudioData Math_max Qplus Set_add String.eqb];
    rewrite Hctx, Hne, Hdec;
    cbn -[decode decodeAudioData Math_max Qplus Set_add String.eqb];
    eexists; repeat split; try reflexivity; exact Hctx.
Qed.

(** Three chunks, each arriving before the one ahead of it has finished
    playing: every chunk starts where the one before ends. *)
Lemma scheduler_gapless (session : LiveSession) (t0 t1 t2 : Q)
    (m1 m2 m3 : LiveServerMessage) (st : Panel) (ctx : AudioContext)
    (b1 b2 b3 : AudioBuffer) :
  outputAudioContextRef st = Some ctx ->
  nextStartTimeRef st <= t0 ->
  t1 < t0 + duration b1 ->
  t2 < t0 + duration b1 + duration b2 ->
  decoded_chunk m1 = Some b1 -> interrupted m1 = false ->
  decoded_chunk m2 = Some b2 -> interrupted m2 = false ->
  decoded_chunk m3 = Some b3 -> interrupted m3 = false ->
  let st1 := fst (onmessage session t0 m1 st) in
  let st2 := fst (onmessage session t1 m2 st1) in
  let st3 := fst (onmessage session t2 m3 st2) in
  scheduled (calls st3)
  = scheduled (calls st)
    ++ [(t0, duration b1); (t0 + duration b1, duration b2);
        (t0 + duration b1 + duration b2, duration b3)]
  /\ nextStartTimeRef st3 = t0 + duration b1 + duration b2 + duration b3.
Proof.
  intros Hctx Hcursor Ht1 Ht2 H1 I1 H2 I2 H3 I3. cbv zeta.
  destruct (onmessage_schedules session t0 m1 st ctx b1 Hctx H1 I1)
    as (st1 & R1 & C1 & N1 & _ & _ & X1).
  rewrite R1. cbn [fst].
  destruct (onmessage_schedules session t1 m2 st1 ctx b2 X1 H2 I2)
    as (st2 & R2 & C2 & N2 & _ & _ & X2).
  rewrite R2. cbn [fst].
  destruct (onmessage_schedules session t2 m3 st2 ctx b3 X2 H3 I3)
    as (st3 & R3 & C3 & N3 & _ & _ & _).
  rewrite R3. cbn [fst].
  rewrite (Math_max_r _ _ Hcursor) in C1, N1.
  rewrite N1 in C2, N2. rewrite (Math_max_l _ _ Ht1) in C2, N2.
  rewrite N2 in C3, N3. rewrite (Math_max_l _ _ Ht2) in C3, N3.
  split; [|exact N3].
  rewrite C3, C2, C1, !scheduled_app, <- !app_assoc. reflexivity.
Qed.

(** C1. An inbound audio chunk of duration d starts at the maximum of the
    cursor and the clock reading, and the cursor becomes that start time
    plus d.  Three chunks arriving at clock time t0, the cursor not being
    ahead of the clock, start at t0, t0 + d1 and t0 + d1 + d2: each starts
    where the one before ends, without gap or overlap. *)
Theorem scheduler_back_to_back :
  (forall (session : LiveSession) (currentTime : Q) (message : LiveServerMessage)
          (st : Panel) (ctx : AudioContext) (buffer : AudioBuffer),
      outputAudioContextRef st = Some ctx ->
      decoded_chunk message = Some buffer ->
      interrupted message = false ->
      let startTime := Math_max (nextStartTimeRef st) currentTime in
      let st' := fst (onmessage session currentTime message st) in
      (nextStartTimeRef st <= startTime /\ currentTime <= startTime
       /\ (startTime = nextStartTimeRef st \/ startTime = currentTime))
      /\ snd (onmessage session currentTime message st) = None
      /\ calls st' = calls st ++ [SourceStart (fresh st) startTime buffer]
      /\ audioSourcesRef st' = Set_add (fresh st) (audioSourcesRef st)
      /\ nextStartTimeRef st' = startTime + duration buffer)
  /\ (forall (session : LiveSession) (t0 : Q) (m1 m2 m3 : LiveServerMessage)
            (st : Panel) (ctx : AudioContext) (b1 b2 b3 : AudioBuffer),
        outputAudioContextRef st = Some ctx ->
        nextStartTimeRef st <= t0 ->
        decoded_chunk m1 = Some b1 -> interrupted m1 = false ->
        decoded_chunk m2 = Some b2 -> interrupted m2 = false ->
        decoded_chunk m3 = Some b3 -> interrupted m3 = false ->
        let st1 := fst (onmessage session t0 m1 st) in
        let st2 := fst (onmessage session t0 m2 st1) in
        let st3 := fst (onmessage session t0 m3 st2) in
        let start1 := t0 in
        let start2 := start1 + duration b1 in
        let start3 := start2 + duration b2 in
        scheduled (calls st3)
        = scheduled (calls st)
          ++ [(start1, duration b1); (start2, duration b2); (start3, duration b3)]
        /\ nextStartTimeRef st3 = start3 + duration b3).
Proof.
  split.
  - intros session currentTime message st ctx buffer Hctx Hchunk Hint startTime st'.
    destruct (onmessage_schedules session currentTime message st ctx buffer Hctx Hchunk Hint)
      as (st1 & Hrun & Hcalls & Hnext & Hset & _ & _).
    subst st'. rewrite Hrun. cbn [fst snd].
    split; [apply Math_max_spec|]. auto.
  - intros session t0 m1 m2 m3 st ctx b1 b2 b3 Hctx Hcursor H1 I1 H2 I2 H3 I3.
    pose proof (decoded_chunk_duration _ _ H1) as D1.
    pose proof (decoded_chunk_duration _ _ H2) as D2.
    apply (scheduler_gapless session t0 t0 t0 m1 m2 m3 st ctx b1 b2 b3); auto; lra.
Qed.

Lemma silence_decodes : decoded_chunk (audio_chunk silence) = Some silence_buffer.
Proof. vm_compute. reflexivity. Defined.

Lemma scheduler_back_to_back_witness :
  let d := duration silence_buffer in
  scheduled
    (calls (fst (onmessage the_session 5 (audio_chunk silence)
              (fst (onmessage the_session 5 (audio_chunk silence)
                 (fst (onmessage the_session 5 (audio_chunk silence) live)))))))
  = [(5, d); (5 + d, d); (5 + d + d, d)].
Proof.
  assert (Hclock : nextStartTimeRef live <= 5) by (vm_compute; discriminate).
  exact (proj1 (proj2 scheduler_back_to_back the_session 5
                  (audio_chunk silence) (audio_chunk silence) (audio_chunk silence)
                  live {| ctx_id := 2; ctx_sampleRate := 24000 |}
                  silence_buffer silence_buffer silence_buffer
                  eq_refl Hclock
                  silence_decodes eq_refl silence_decodes eq_refl silence_decodes eq_refl)).
Defined.
End Scheduler.

(** ** Interruption *)

Section Interruption.
Local Open Scope Q_scope.

Ltac panel_eval :=
  cbn -[decode decodeAudioData Math_max Qplus Set_add String.eqb stopAll].

Lemma stop_each (sources : list nat) (st : Panel) :
  fold_left (fun st source => perform (SourceStop source) st) sources st
  = perform_all (map SourceStop sources) st.
Proof.
  revert st. induction sources as [|x l IH]; intros st.
  - destruct st. unfold perform_all. cbn. rewrite app_nil_r. reflexivity.
  - cbn [fold_left map]. rewrite IH. unfold perform_all, perform. cbn.
    rewrite <- app_assoc. reflexivity.
Qed.

(** The interrupted branch: every source of the set is stopped, the set
    is emptied, the cursor is back at 0. *)
Lemma interrupted_branch (st : Panel) :
  let st' := set_nextStartTimeRef 0 (set_audioSourcesRef [] (stopAll st)) in
  audioSourcesRef st' = []
  /\ nextStartTimeRef st' = 0
  /\ calls st' = calls st ++ map SourceStop (audioSourcesRef st)
  /\ fresh st' = fresh st
  /\ outputAudioContextRef st' = outputAudioContextRef st.
Proof.
  cbv zeta. unfold stopAll. rewrite stop_each. repeat split; reflexivity.
Qed.

Lemma Set_add_In (x y : nat) (s : list nat) :
  In y (Set_add x s) <-> y = x \/ In y s.
Proof.
  unfold Set_add. destruct (existsb (Nat.eqb x) s) eqn:E.
  - split; [auto|]. intros [->|H]; [|exact H].
    apply existsb_exists in E. destruct E as (z & Hz & Hxz).
    apply Nat.eqb_eq in Hxz. subst z. exact Hz.
  - rewrite in_app_iff. cbn. intuition.
Qed.

(** C2, on the code.  An interruption signal whose message carries no
    audio, or audio that decodes, is processed as the specification says:
    every buffer of the active set has been stopped, the one scheduled by
    the same message included; the set is empty, so no buffer was added
    while it was cleared; the cursor is back at 0, so the next chunk starts
    at the clock reading and not at a cursor advanced before.  But the
    handler decodes the audio of the message before it looks at the signal,
    and nothing catches what decoding throws: with one chunk playing, a
    message that carries the signal together with audio that cannot be
    decoded (one byte, which [Int16Array] refuses) ends the handler with
    [RangeError]; the source is not stopped, the set still holds it, the
    cursor stays where playback had taken it, and the next chunk, arriving
    at the same clock reading, is queued behind the audio that should have
    been cancelled. *)
Theorem interruption_clears :
  (forall (session : LiveSession) (currentTime : Q)
          (message : LiveServerMessage) (st : Panel),
      interrupted message = true ->
      (forall e, chunk_result message <> Some (Throw e)) ->
      exists st',
        onmessage session currentTime message st = (st', None)
        /\ audioSourcesRef st' = []
        /\ nextStartTimeRef st' = 0
        /\ (forall source, In source (audioSourcesRef st) -> In (SourceStop source) (calls st'))
        /\ (forall buffer,
              outputAudioContextRef st <> None -> decoded_chunk message = Some buffer ->
              In (SourceStart (fresh st) (Math_max (nextStartTimeRef st) currentTime) buffer)
                 (calls st')
              /\ In (SourceStop (fresh st)) (calls st'))
        /\ (forall (session' : LiveSession) (now : Q) (next : LiveServerMessage)
                   (buffer : AudioBuffer),
              0 <= now ->
              outputAudioContextRef st <> None ->
              decoded_chunk next = Some buffer ->
              interrupted next = false ->
              scheduled (calls (fst (onmessage session' now next st')))
              = scheduled (calls st') ++ [(now, duration buffer)]))
  /\ (let playing := fst (onmessage the_session 5 (audio_chunk silence) live) in
      let message :=
        {| inputTranscription := None; outputTranscription := None;
           turnComplete := false; audioData := Some "AQ=="%string;
           interrupted := true |} in
      audioSourcesRef playing = [5%nat]
      /\ 5 < nextStartTimeRef playing
      /\ exists st',
           onmessage the_session 5 message playing = (st', Some RangeError)
           /\ calls st' = calls playing
           /\ existsb (stops 5) (calls st') = false
           /\ audioSourcesRef st' = [5%nat]
           /\ nextStartTimeRef st' = nextStartTimeRef playing
           /\ scheduled (calls (fst (onmessage the_session 5 (audio_chunk silence) st')))
              = scheduled (calls st')
                ++ [(nextStartTimeRef playing, duration silence_buffer)]).
Proof.
  split.
  { intros session currentTime message st.

      intros Hint Hok.
      assert (Hcases :
        exists st1,
          onmessage session currentTime message st
          = (set_nextStartTimeRef 0 (set_audioSourcesRef [] (stopAll st1)), None)
          /\ outputAudioContextRef st1 = outputAudioContextRef st
          /\ (forall source, In source (audioSourcesRef st) -> In source (audioSourcesRef st1))
          /\ (exists cs, calls st1 = calls st ++ cs)
          /\ (forall buffer,
                outputAudioContextRef st <> None -> decoded_chunk message = Some buffer ->
                calls st1
                = calls st
                  ++ [SourceStart (fresh st) (Math_max (nextStartTimeRef st) currentTime) buffer]
                /\ In (fresh st) (audioSourcesRef st1))).
      { unfold decoded_chunk, chunk_result in *. unfold onmessage. rewrite Hint.
        destruct (audioData message) as [data|].
        - destruct (String.eqb data EmptyString) eqn:Hne.
          + transcript_cases message; panel_eval;
              destruct (outputAudioContextRef st) eqn:Hctx; rewrite ?Hne;
              eexists; (split; [reflexivity|]); panel_eval;
              (split; [congruence|]); (split; [auto|]);
              (split; [exists []; rewrite app_nil_r; reflexivity|]); intros; discriminate.
          + destruct (bytes ← decode data; decodeAudioData bytes 24000 1) as [b|e] eqn:Hdec;
              [|exfalso; apply (Hok e); reflexivity].
            transcript_cases message; panel_eval;
              destruct (outputAudioContextRef st) eqn:Hctx; rewrite ?Hne, ?Hdec;
              panel_eval;
              eexists; (split; [reflexivity|]); panel_eval;
              (split; [congruence|]);
              (split; [intros; try apply Set_add_In; auto|]);
              (split; [eexists; try reflexivity; rewrite app_nil_r; reflexivity|]);
              intros buffer Hsome Hb; try congruence;
              inversion Hb; subst; (split; [reflexivity|apply Set_add_In; auto]).
        - transcript_cases message; panel_eval;
            eexists; (split; [reflexivity|]); panel_eval;
            (split; [reflexivity|]); (split; [auto|]);
            (split; [exists []; rewrite app_nil_r; reflexivity|]); intros; discriminate. }
      destruct Hcases as (st1 & Hrun & Hctx1 & Hsrc & (cs & Hcs) & Hnew).
      destruct (interrupted_branch st1) as (Hset & Hnext & Hcalls & Hfresh & Hctx).
      cbv zeta in *.
      eexists. split; [exact Hrun|].
      split; [exact Hset|]. split; [exact Hnext|].
      split; [|split].
      - intros source Hin. rewrite Hcalls. apply in_app_iff. right.
        apply in_map, Hsrc, Hin.
      - intros buffer Hsome Hb. destruct (Hnew buffer Hsome Hb) as [Hc Hi].
        rewrite Hcalls, Hc. split.
        + apply in_app_iff. left. apply in_app_iff. right. left. reflexivity.
        + apply in_app_iff. right. apply in_map, Hi.
      - intros session' now next buffer Hnow Hsome Hb Hni.
        destruct (outputAudioContextRef st) as [ctx|] eqn:Ectx; [|congruence].
        destruct (onmessage_schedules session' now next _ ctx buffer
                    ltac:(rewrite Hctx, Hctx1; reflexivity) Hb Hni)
          as (st2 & Hrun2 & Hcalls2 & _).
        rewrite Hrun2. cbn [fst]. rewrite Hcalls2, scheduled_app, Hnext.
        rewrite (Math_max_r 0 now Hnow). reflexivity. }
  { cbv zeta. split; [vm_compute; reflexivity|]. split; [vm_compute; reflexivity|].
    eexists. split; [vm_compute; reflexivity|].
    repeat match goal with |- _ /\ _ => split end; vm_compute; reflexivity. }
Qed.
End Interruption.

Lemma interruption_clears_witness :
exists st',
  onmessage the_session 7 interruption
    (fst (onmessage the_session 5 (audio_chunk silence) live))
  = (st', None)
  /\ audioSourcesRef st' = []
  /\ nextStartTimeRef st' = 0%Q
  /\ In (SourceStop 5) (calls st').
Proof.
destruct (proj1 interruption_clears the_session 7%Q interruption
            (fst (onmessage the_session 5 (audio_chunk silence) live))
            eq_refl ltac:(discriminate))
  as (st' & Hrun & Hset & Hnext & Hstopped & _).
exists st'. split; [exact Hrun|]. split; [exact Hset|]. split; [exact Hnext|].
apply Hstopped. vm_compute. left. reflexivity.
Defined.


(** ** The session lifecycle *)

Section Lifecycle.

(** [stopConversation] in one step: the calls it makes and the state it
    leaves. *)
Lemma stopConversation_result (st : Panel) :
  stopConversation st
  = {| isLive := false; error := error st; transcription := transcription st;
       currentTurn := currentTurn st; sessionPromiseRef := None;
       inputAudioContextRef := inputAudioContextRef st;
       outputAudioContextRef := outputAudioContextRef st;
       mediaStreamRef := mediaStreamRef st; scriptProcessorRef := scriptProcessorRef st;
       nextStartTimeRef := nextStartTimeRef st; audioSourcesRef := [];
       calls := calls st ++ session_close st ++ repeated_releases st
                ++ map SourceStop (audioSourcesRef st);
       fresh := fresh st |}.
Proof.
  destruct st as [live err log turn session input output stream node next sources cs n].
  unfold stopConversation, stopAll, session_close, repeated_releases.
  destruct session, stream, node, input, output;
    cbn -[fold_left]; rewrite stop_each; unfold perform_all; cbn;
    rewrite <- ?app_assoc; reflexivity.
Qed.

Lemma stopConversation_again (st : Panel) :
  stopConversation (stopConversation st)
  = perform_all (repeated_releases st) (stopConversation st).
Proof.
  rewrite (stopConversation_result (stopConversation st)).
  rewrite (stopConversation_result st).
  unfold perform_all, session_close, repeated_releases. cbn.
  rewrite app_nil_r. reflexivity.
Qed.

(** C3, on the code.  The first [stopConversation] closes the session and
    clears its ref, and leaves the session idle with an empty set of
    sources; a second one returns to the same state and raises nothing.
    But it releases again what the first one released: the refs of the
    microphone stream, of the script processor and of the two audio
    contexts are never cleared, so their tracks are stopped, the node
    disconnected and both contexts closed a second time.  Only a panel
    that never started is left untouched. *)
Theorem stopConversation_twice :
  (forall st : Panel,
      stopConversation (stopConversation st)
      = perform_all (repeated_releases st) (stopConversation st))
  /\ sessionPromiseRef live = Some the_session
  /\ repeated_releases live
     = [TrackStop 0; Disconnect 4; ContextClose 1; ContextClose 2]
  /\ (let once := stopConversation live in
      let twice := stopConversation once in
      isLive once = false /\ sessionPromiseRef once = None /\ audioSourcesRef once = []
      /\ isLive twice = false /\ sessionPromiseRef twice = None /\ audioSourcesRef twice = []
      /\ calls once
         = [GetUserMedia; Connect 3; SessionClose 3; TrackStop 0;
            Disconnect 4; ContextClose 1; ContextClose 2]
      /\ calls twice
         = calls once ++ [TrackStop 0; Disconnect 4; ContextClose 1; ContextClose 2]
      /\ times (SessionClose 3) (calls twice) = 1
      /\ times (TrackStop 0) (calls twice) = 2
      /\ times (Disconnect 4) (calls twice) = 2
      /\ times (ContextClose 1) (calls twice) = 2
      /\ times (ContextClose 2) (calls twice) = 2)
  /\ stopConversation initial = initial.
Proof.
  split; [exact stopConversation_again|].
  cbv zeta. repeat match goal with |- _ /\ _ => split end; vm_compute; reflexivity.
Qed.

(** What a turn-complete signal appends is the turn the callbacks closed
    over, whatever has been accumulated. *)
Lemma onmessage_turnComplete (session : LiveSession) (currentTime : Q)
    (message : LiveServerMessage) (st : Panel) :
  turnComplete message = true ->
  let st' := fst (onmessage session currentTime message st) in
  transcription st' = transcription st ++ [closure_currentTurn session].
Proof.
  intros Htc. cbv zeta. unfold onmessage. rewrite Htc.
  destruct (inputTranscription message), (outputTranscription message);
    cbn -[decode decodeAudioData Math_max Qplus Set_add String.eqb stopAll];
    (destruct (audioData message) as [data|];
     [destruct (outputAudioContextRef st);
      [destruct (String.eqb data EmptyString);
       [|destruct (bytes ← decode data; decodeAudioData bytes 24000 1)]|]|]);
    cbn -[decode decodeAudioData Math_max Qplus Set_add String.eqb stopAll];
    destruct (interrupted message);
    cbn -[decode decodeAudioData Math_max Qplus Set_add String.eqb stopAll];
    unfold stopAll; rewrite ?stop_each; reflexivity.
Qed.

(** C9, on the code.  The handler appends the [currentTurn] its closure
    captured when the session was started, not the accumulator: after the
    fragment "hello" and a turn-complete signal, in two messages or in one,
    the record added to the log is the empty turn.  The accumulator is
    cleared after the append. *)
Theorem turnComplete_appends_closure_turn :
  sessionPromiseRef live = Some the_session
  /\ (let st1 := fst (onmessage the_session 0 (user_says "hello") live) in
      let st2 := fst (onmessage the_session 0 turn_complete st1) in
      currentTurn st1 = {| user := "hello"; model := EmptyString |}
      /\ transcription st2 = [emptyTurn]
      /\ transcription st2 <> [{| user := "hello"; model := EmptyString |}]
      /\ currentTurn st2 = emptyTurn)
  /\ (let st := fst (onmessage the_session 0 (user_says_and_completes "hello") live) in
      transcription st = [emptyTurn]
      /\ transcription st <> [{| user := "hello"; model := EmptyString |}]
      /\ currentTurn st = emptyTurn).
Proof.
  cbv zeta. repeat match goal with |- _ /\ _ => split end;
    first [vm_compute; reflexivity | vm_compute; discriminate].
Qed.

(** C10. Starting while the session is live changes nothing: the state,
    the transcript log, the accumulator, the channel handle, the audio
    contexts and the microphone stream are as before, no call is made and
    no object is created. *)
Theorem startConversation_live_noop (granted : bool) (st : Panel) :
  isLive st = true -> startConversation granted st = st.
Proof. intros Hlive. unfold startConversation. rewrite Hlive. reflexivity. Qed.

Lemma startConversation_live_noop_witness :
  isLive live = true /\ startConversation true live = live.
Proof.
  split; [reflexivity|]. apply startConversation_live_noop. reflexivity.
Defined.
End Lifecycle.

(** ** More on the codec *)

Section CodecShape.

Lemma length_string_of_list_ascii (l : list ascii) :
  String.length (string_of_list_ascii l) = length l.
Proof. induction l as [|c l IH]; cbn; auto. Qed.

Lemma list_ascii_of_string_app (s1 s2 : string) :
  list_ascii_of_string (s1 ++ s2) = list_ascii_of_string s1 ++ list_ascii_of_string s2.
Proof.
  induction s1 as [|c s1 IH]; [reflexivity|].
  change (list_ascii_of_string (String c (s1 ++ s2))
          = (c :: list_ascii_of_string s1) ++ list_ascii_of_string s2).
  cbn [list_ascii_of_string app]. rewrite IH. reflexivity.
Qed.

Lemma encode_text (bytes : list byte) :
  encode bytes = btoa (string_of_list_ascii (map ascii_of_byte bytes)).
Proof. unfold encode. rewrite encode_binary by lia. rewrite firstn_all. reflexivity. Qed.

Lemma encode_chars (bytes : list byte) :
  list_ascii_of_string (encode bytes)
  = map b64_char (sextets (map ascii_of_byte bytes)) ++ padding (length bytes).
Proof.
  rewrite encode_text. unfold btoa.
  rewrite !list_ascii_of_string_of_list_ascii, length_map. reflexivity.
Qed.

Lemma length_sextets_padding (l : list ascii) :
  length (sextets l) + length (padding (length l)) = 4 * ((length l + 2) / 3).
Proof.
  induction l as [|a|a b|a b c r IH] using list_ind3; try reflexivity.
  cbn [sextets length]; cbv zeta. change (S (S (S (length r)))) with (3 + length r).
  rewrite padding_SSS. cbn [length].
  replace (3 + length r + 2) with (length r + 2 + 1 * 3) by lia.
  rewrite Nat.div_add by lia. lia.
Qed.

Lemma b64_char_in_alphabet (vs : list N) :
  Forall (fun v => (v < 64)%N) vs -> Forall in_alphabet (map b64_char vs).
Proof.
  intros H. apply Forall_map. eapply Forall_impl; [exact H|].
  intros v Hv. exists v. apply b64_value_char, Hv.
Qed.

(** X1. The text [encode] returns for n bytes has 4 * ceil(n / 3)
    characters: characters of the base64 alphabet, followed by no, two or
    one [=] when n mod 3 is 0, 1 or 2. *)
Theorem encode_shape (bytes : list byte) :
  String.length (encode bytes) = 4 * ((length bytes + 2) / 3)
  /\ exists body,
       list_ascii_of_string (encode bytes) = body ++ padding (length bytes)
       /\ Forall in_alphabet body
       /\ padding (length bytes)
          = match length bytes mod 3 with
            | 0 => []
            | 1 => ["="%char; "="%char]
            | _ => ["="%char]
            end.
Proof.
  split.
  - rewrite <- length_list_ascii, encode_chars, length_app, length_map.
    rewrite <- (length_map ascii_of_byte bytes). apply length_sextets_padding.
  - eexists. split; [apply encode_chars|]. split.
    + apply b64_char_in_alphabet, sextets_bound.
    + unfold padding. pose proof (Nat.mod_upper_bound (length bytes) 3 ltac:(lia)).
      destruct (length bytes mod 3) as [|[|[|?]]]; try reflexivity. lia.
Qed.

(** The round trip of the codec, for the proofs below. *)
Lemma decode_encode_bytes (bytes : list byte) : decode (encode bytes) = Normal bytes.
Proof.
  rewrite encode_text. unfold decode.
  rewrite atob_btoa. cbn [mbind completion_bind bind].
  rewrite decode_bytes by lia.
  rewrite <- length_list_ascii, firstn_all, Nat.sub_diag, app_nil_r.
  rewrite list_ascii_of_string_of_list_ascii, map_map.
  f_equal. rewrite <- (map_id bytes) at 2. apply map_ext. intros x.
  apply byte_of_ascii_of_byte.
Qed.

Lemma encode_nonempty (bytes : list byte) :
  bytes <> [] -> String.eqb (encode bytes) EmptyString = false.
Proof.
  intros Hne. destruct (String.eqb (encode bytes) EmptyString) eqn:E; [|reflexivity].
  apply String.eqb_eq in E. pose proof (decode_encode_bytes bytes) as H.
  rewrite E in H. assert (H0 : decode EmptyString = Normal []) by reflexivity.
  congruence.
Qed.

Lemma filter_not_pad (vs : list N) (pad : list ascii) :
  Forall (fun v => (v < 64)%N) vs ->
  Forall (fun c => c = pad_char) pad ->
  List.filter (fun c => negb (Ascii.eqb c pad_char)) (map b64_char vs ++ pad)
  = map b64_char vs.
Proof.
  intros Hvs Hpad. rewrite List.filter_app.
  rewrite (filter_id _ (map b64_char vs)).
  - induction Hpad as [|c pad -> _ IH]; cbn; [apply app_nil_r|exact IH].
  - apply Forall_map. eapply Forall_impl; [exact Hvs|].
    intros v Hv. cbn. rewrite (b64_char_not_pad v Hv). reflexivity.
Qed.

Lemma padding_all_pad (n : nat) : Forall (fun c => c = pad_char) (padding n).
Proof. destruct (padding_cases n) as [-> | [-> | ->]]; repeat constructor. Qed.

Lemma atob_of_sextets (l : list ascii) :
  atob (string_of_list_ascii (map b64_char (sextets l))) = Normal (string_of_list_ascii l).
Proof.
  unfold atob. rewrite list_ascii_of_string_of_list_ascii.
  pose proof (sextets_bound l) as Hb.
  pose proof (encoded_no_whitespace _ 0 Hb) as Hws.
  change (padding 0) with (@nil ascii) in Hws. rewrite app_nil_r in Hws.
  rewrite (filter_id _ _ Hws).
  assert (Hstrip : strip_padding (map b64_char (sextets l)) = map b64_char (sextets l)).
  { destruct (Nat.eqb_spec (length (map b64_char (sextets l)) mod 4) 0) as [E|E].
    - pose proof (strip_padding_encoded (sextets l) 0 Hb) as H.
      change (padding 0) with (@nil ascii) in H. rewrite app_nil_r in H. apply H, E.
    - unfold strip_padding. apply Nat.eqb_neq in E. rewrite E. reflexivity. }
  rewrite Hstrip, (mapM_b64_value _ Hb), octets_sextets. reflexivity.
Qed.

(** X2. [decode] does not need the padding: the text of [encode] with its
    [=] characters removed decodes to the same bytes. *)
Theorem decode_without_padding (bytes : list byte) :
  decode (without_padding (encode bytes)) = Normal bytes.
Proof.
  unfold without_padding. rewrite encode_chars.
  rewrite (filter_not_pad _ _ (sextets_bound _) (padding_all_pad _)).
  unfold decode. rewrite atob_of_sextets. cbn [mbind completion_bind bind].
  rewrite decode_bytes by lia.
  rewrite <- length_list_ascii, firstn_all, Nat.sub_diag, app_nil_r.
  rewrite list_ascii_of_string_of_list_ascii, map_map.
  f_equal. rewrite <- (map_id bytes) at 2. apply map_ext. intros x.
  apply byte_of_ascii_of_byte.
Qed.

(** X3. [decode] skips ASCII white space (tab, line feed, form feed,
    carriage return, space) wherever it stands in the text. *)
Theorem decode_skips_whitespace (s1 s2 : string) (c : ascii) :
  is_ascii_whitespace c = true ->
  decode (s1 ++ String c s2) = decode (s1 ++ s2).
Proof.
  intros Hc. unfold decode, atob.
  rewrite !list_ascii_of_string_app. cbn [list_ascii_of_string].
  rewrite !List.filter_app. cbn [List.filter]. rewrite Hc. reflexivity.
Qed.

Lemma decode_skips_whitespace_witness :
  decode "SGVs bG8=" = decode "SGVsbG8=".
Proof. exact (decode_skips_whitespace "SGVs" "bG8=" " " eq_refl). Defined.

Lemma In_drop_padding_rev (c : ascii) (r : list ascii) :
  Ascii.eqb c pad_char = false -> In c r -> In c (drop_padding_rev r).
Proof.
  intros Hc Hin. destruct r as [|c1 r1]; [exact Hin|]. cbn [drop_padding_rev].
  destruct (Ascii.eqb c1 pad_char) eqn:E1; [|exact Hin].
  apply Ascii.eqb_eq in E1. subst c1.
  destruct Hin as [Heq|Hin]; [subst c; rewrite Ascii.eqb_refl in Hc; discriminate|].
  destruct r1 as [|c2 r2]; [exact Hin|].
  destruct (Ascii.eqb c2 pad_char) eqn:E2; [|exact Hin].
  apply Ascii.eqb_eq in E2. subst c2.
  destruct Hin as [Heq|Hin]; [subst c; rewrite Ascii.eqb_refl in Hc; discriminate|].
  exact Hin.
Qed.

Lemma In_strip_padding (c : ascii) (l : list ascii) :
  Ascii.eqb c pad_char = false -> In c l -> In c (strip_padding l).
Proof.
  intros Hc Hin. unfold strip_padding. destruct (length l mod 4 =? 0); [|exact Hin].
  apply in_rev. rewrite rev_involutive. apply In_drop_padding_rev; [exact Hc|].
  apply in_rev in Hin. exact Hin.
Qed.

Lemma mapM_None_In {A B : Type} (f : A -> option B) (x : A) (l : list A) :
  In x l -> f x = None -> mapM f l = None.
Proof.
  intros Hin Hx. induction l as [|y l IH]; [destruct Hin|].
  cbn. destruct Hin as [->|Hin].
  - rewrite Hx. reflexivity.
  - destruct (f y); [|reflexivity]. cbn. rewrite (IH Hin). reflexivity.
Qed.

(** X4. [decode] throws on every text holding a character that is neither
    of the base64 alphabet, nor ASCII white space, nor [=]. *)
Theorem decode_rejects_foreign (s : string) (c : ascii) :
  In c (list_ascii_of_string s) ->
  b64_value c = None ->
  is_ascii_whitespace c = false ->
  c <> "="%char ->
  decode s = Throw InvalidCharacterError.
Proof.
  intros Hin Hval Hws Hpad. unfold decode, atob.
  assert (Hc : Ascii.eqb c pad_char = false) by (apply Ascii.eqb_neq; exact Hpad).
  rewrite (mapM_None_In b64_value c); [reflexivity| |exact Hval].
  apply In_strip_padding; [exact Hc|].
  apply List.filter_In. split; [exact Hin|]. rewrite Hws. reflexivity.
Qed.

Lemma decode_rejects_foreign_witness : decode "SGVs*G8=" = Throw InvalidCharacterError.
Proof.
  apply (decode_rejects_foreign "SGVs*G8=" "*").
  - cbn. auto 10.
  - reflexivity.
  - reflexivity.
  - discriminate.
Defined.
End CodecShape.

(** ** More on [decodeAudioData] *)

Section DecodedBuffers.
Local Open Scope Z_scope.

Lemma decodeAudioData_inv (data : list byte) (sampleRate : Z) (numChannels : nat)
    (buffer : AudioBuffer) :
  decodeAudioData data sampleRate numChannels = Normal buffer ->
  Nat.even (length data) = true
  /\ (1 <= numChannels <= 32)%nat
  /\ 8000 <= sampleRate <= 96000
  /\ (1 <= Z.to_nat (ToUint32 (length_div (length data / 2) numChannels)))%nat.
Proof.
  unfold decodeAudioData, Int16Array_of_buffer. intros H.
  destruct (Nat.even (length data)); [|discriminate].
  cbn [mbind completion_bind bind] in H. rewrite length_int16_elements in H.
  unfold createBuffer in H.
  match type of H with
  | context [if ?c then _ else _] => destruct c eqn:Hc; [|discriminate]
  end.
  rewrite !andb_true_iff, !Nat.leb_le, !Z.leb_le in Hc. intuition.
Qed.

Lemma whole_frame (data : list byte) (sampleRate : Z) (numChannels : nat)
    (buffer : AudioBuffer) :
  decodeAudioData data sampleRate numChannels = Normal buffer ->
  Z.of_nat (length data) < 4294967296 ->
  (numChannels <= length data / 2)%nat
  /\ Z.of_nat (length data / 2 / numChannels) < 4294967296.
Proof.
  intros H Hlen. destruct (decodeAudioData_inv _ _ _ _ H) as (_ & Hnc & _ & Hframe).
  assert (Hsmall : Z.of_nat (length data / 2 / numChannels) < 4294967296).
  { assert (length data / 2 / numChannels <= length data)%nat; [|lia].
    etransitivity; [apply Nat.Div0.div_le_upper_bound with (q := (length data / 2)%nat)|].
    - nia.
    - apply Nat.Div0.div_le_upper_bound. lia. }
  split; [|exact Hsmall].
  rewrite frame_count in Hframe by (lia || exact Hsmall).
  destruct (Nat.lt_ge_cases (length data / 2) numChannels) as [Hlt|Hge]; [|exact Hge].
  rewrite Nat.div_small in Hframe by exact Hlt. lia.
Qed.

(** X5. An even number of bytes that holds less than one whole frame, the
    empty input included, is refused with [NotSupportedError]; so is a
    channel count of 0. *)
Theorem decodeAudioData_no_frame (data : list byte) (sampleRate : Z) (numChannels : nat) :
  (length data mod 2 = 0)%nat ->
  (length data / 2 < numChannels)%nat \/ numChannels = 0%nat ->
  decodeAudioData data sampleRate numChannels = Throw NotSupportedError.
Proof.
  intros Heven Hshort. unfold decodeAudioData, Int16Array_of_buffer.
  rewrite even_mod2, Heven. cbn [Nat.eqb mbind completion_bind bind].
  rewrite length_int16_elements. unfold createBuffer.
  assert (Hzero : Z.to_nat (ToUint32 (length_div (length data / 2) numChannels)) = 0%nat).
  { destruct numChannels as [|n].
    - unfold length_div. destruct (length data / 2)%nat; reflexivity.
    - destruct Hshort as [Hlt|Hz]; [|discriminate].
      assert (Hsmall : Z.of_nat (length data / 2 / S n) < 4294967296).
      { rewrite Nat.div_small by exact Hlt. lia. }
      rewrite frame_count by (lia || exact Hsmall).
      apply Nat.div_small, Hlt. }
  rewrite Hzero. cbn [Nat.leb]. rewrite andb_false_r. reflexivity.
Qed.

Lemma decodeAudioData_no_frame_witness :
  decodeAudioData [] 24000 1 = Throw NotSupportedError
  /\ decodeAudioData [x01; x02] 24000 2 = Throw NotSupportedError.
Proof.
  split.
  - apply (decodeAudioData_no_frame [] 24000 1); [reflexivity|left; cbn; lia].
  - apply (decodeAudioData_no_frame [x01; x02] 24000 2); [reflexivity|left; cbn; lia].
Defined.

Lemma setChannelData_shape (b : AudioBuffer) (channel i : nat) (v : number) :
  length (buf_channels (setChannelData b channel i v)) = length (buf_channels b)
  /\ (Forall (fun c => length c = buf_length b) (buf_channels b) ->
      Forall (fun c => length c = buf_length b) (buf_channels (setChannelData b channel i v))).
Proof.
  unfold setChannelData. cbn [buf_channels].
  destruct (buf_channels b !! channel) as [c|] eqn:E; [|auto].
  split; [apply length_insert|].
  intros Hall. apply Forall_insert; [exact Hall|].
  rewrite length_insert. eapply Forall_lookup_1 in Hall; [exact Hall|exact E].
Qed.

(** X6. Every buffer [decodeAudioData] returns is well formed: it has the
    sample rate and the number of channels asked for, at least one frame,
    every channel as long as the buffer, and a positive duration. *)
Theorem decodeAudioData_well_formed (data : list byte) (sampleRate : Z) (numChannels : nat)
    (buffer : AudioBuffer) :
  decodeAudioData data sampleRate numChannels = Normal buffer ->
  buf_sampleRate buffer = sampleRate
  /\ length (buf_channels buffer) = numChannels
  /\ (1 <= buf_length buffer)%nat
  /\ Forall (fun c => length c = buf_length buffer) (buf_channels buffer)
  /\ (0 < duration buffer)%Q.
Proof.
  intros H. destruct (decodeAudioData_fields _ _ _ _ H) as (Hrate & Hmin & Hlen).
  assert (Hshape : length (buf_channels buffer) = numChannels
                   /\ Forall (fun c => length c = buf_length buffer) (buf_channels buffer)).
  { unfold decodeAudioData in H.
    destruct (Int16Array_of_buffer data) as [ints|e]; [|discriminate].
    cbn [mbind completion_bind bind] in H. unfold createBuffer in H.
    match type of H with
    | context [if ?c then _ else _] => destruct c; [|discriminate]
    end.
    cbn [mbind completion_bind bind] in H. inversion H as [Hb]. clear H Hb.
    set (len := Z.to_nat (ToUint32 (length_div (length ints) numChannels))).
    apply (for_loop_invariant
             (fun b => buf_length b = len
                       /\ length (buf_channels b) = numChannels
                       /\ Forall (fun c => length c = buf_length b) (buf_channels b)
                       -> length (buf_channels b) = numChannels
                          /\ Forall (fun c => length c = buf_length b) (buf_channels b)));
      [tauto|tauto|].
    clear.
    apply (for_loop_invariant
             (fun b => buf_length b = len
                       /\ length (buf_channels b) = numChannels
                       /\ Forall (fun c => length c = buf_length b) (buf_channels b))).
    - intros channel b Hb.
      apply (for_loop_invariant
               (fun b => buf_length b = len
                         /\ length (buf_channels b) = numChannels
                         /\ Forall (fun c => length c = buf_length b) (buf_channels b)));
        [|exact Hb].
      intros i b' (Hl & Hn & Hall).
      destruct (setChannelData_shape b' channel i
                  (sample_of_int16 (ints !! (i * numChannels + channel)%nat))) as [H1 H2].
      split; [exact Hl|]. split; [rewrite H1; exact Hn|]. apply H2, Hall.
    - cbn [buf_length buf_channels]. split; [reflexivity|].
      split; [apply length_replicate|].
      apply Forall_replicate. apply length_replicate. }
  destruct Hshape as [Hn Hall].
  repeat split; auto.
  unfold duration, Qlt. rewrite Hrate. cbn. lia.
Qed.

Lemma decodeAudioData_well_formed_witness :
  exists buffer,
    decodeAudioData [x00; x40; x00; x80; xff; x7f; x01; x00] 24000 2 = Normal buffer
    /\ length (buf_channels buffer) = 2%nat
    /\ Forall (fun c => length c = buf_length buffer) (buf_channels buffer).
Proof.
  eexists. split; [reflexivity|].
  destruct (decodeAudioData_well_formed
              [x00; x40; x00; x80; xff; x7f; x01; x00] 24000 2 _ eq_refl)
    as (_ & Hn & _ & Hall & _).
  split; [exact Hn|exact Hall].
Defined.

Lemma byte_bound (b : byte) : 0 <= Z.of_N (Byte.to_N b) < 256.
Proof. pose proof (Byte.to_N_bounded b). lia. Qed.

Lemma byte_of_Z_to_N (b : byte) : byte_of_Z (Z.of_N (Byte.to_N b)) = b.
Proof. destruct b; reflexivity. Qed.

Lemma int16_of_bytes_range (lo hi : byte) : int16_range (int16_of_bytes lo hi).
Proof.
  unfold int16_range, int16_of_bytes.
  pose proof (byte_bound lo). pose proof (byte_bound hi).
  destruct (Z.leb_spec 32768 (Z.of_N (Byte.to_N lo) + 256 * Z.of_N (Byte.to_N hi))); lia.
Qed.

Lemma le16_int16_of_bytes (lo hi : byte) : le16 (int16_of_bytes lo hi) = [lo; hi].
Proof.
  unfold le16. pose proof (byte_bound lo) as Hlo. pose proof (byte_bound hi) as Hhi.
  f_equal; [|f_equal].
  - etransitivity; [|apply (byte_of_Z_to_N lo)].
    apply byte_of_Z_mod; unfold int16_of_bytes;
      destruct (Z.leb_spec 32768 (Z.of_N (Byte.to_N lo) + 256 * Z.of_N (Byte.to_N hi)));
      Z.to_euclidean_division_equations; lia.
  - etransitivity; [|apply (byte_of_Z_to_N hi)].
    apply byte_of_Z_mod; unfold int16_of_bytes;
      destruct (Z.leb_spec 32768 (Z.of_N (Byte.to_N lo) + 256 * Z.of_N (Byte.to_N hi)));
      Z.to_euclidean_division_equations; lia.
Qed.

Lemma Int16Array_bytes_elements (data : list byte) :
  Nat.even (length data) = true -> Int16Array_bytes (int16_elements data) = data.
Proof.
  induction data as [|a|a b r IH] using (@list_ind2 byte); intros Heven.
  - reflexivity.
  - discriminate.
  - cbn [int16_elements]. unfold Int16Array_bytes in *. cbn [flat_map].
    rewrite le16_int16_of_bytes, IH by exact Heven. reflexivity.
Qed.

Lemma int16_elements_range (data : list byte) : Forall int16_range (int16_elements data).
Proof.
  induction data as [|a|a b r IH] using (@list_ind2 byte); cbn [int16_elements];
    [constructor|constructor|].
  constructor; [apply int16_of_bytes_range|exact IH].
Qed.

(** A mono buffer holds the 16-bit elements of its bytes, each divided by
    32768. *)
Lemma deinterleaved_mono (data : list byte) :
  deinterleaved data 1
  = [map (fun z => Fin (inject_Z z / 32768)) (int16_elements data)].
Proof.
  unfold deinterleaved. cbn [seq map]. f_equal.
  rewrite Nat.div_1_r. apply list_eq. intros i.
  rewrite !list_lookup_fmap.
  destruct (Nat.lt_ge_cases i (length data / 2)) as [Hlt|Hge].
  - rewrite lookup_seq_lt by exact Hlt. cbn [fmap option_fmap option_map].
    replace (0 + i)%nat with i by lia. replace (i * 1 + 0)%nat with i by lia.
    rewrite <- int16_elements_lookup.
    destruct (lookup_lt_is_Some_2 (int16_elements data) i) as [z Hz].
    { rewrite length_int16_elements. exact Hlt. }
    rewrite Hz. reflexivity.
  - rewrite (lookup_ge_None_2 (seq 0 (length data / 2))) by (rewrite length_seq; exact Hge).
    rewrite (lookup_ge_None_2 (int16_elements data))
      by (rewrite length_int16_elements; exact Hge).
    reflexivity.
Qed.

Lemma ToInt16_rescaled (z : Z) :
  int16_range z -> ToInt16 (number_mul (Fin (inject_Z z / 32768)) 32768) = z.
Proof.
  intros Hz. cbn [number_mul]. rewrite ToInt16_small.
  - unfold truncate. cbn. rewrite Z.mul_1_r. apply Z.quot_mul. lia.
  - unfold truncate. cbn. rewrite Z.mul_1_r, Z.quot_mul by lia. exact Hz.
Qed.

(** X7. Decoding is undone by the capture conversion: the one channel of a
    decoded mono buffer, converted with [floatToInt16], is the decoded bytes
    again, unchanged. *)
Theorem floatToInt16_decodeAudioData (data : list byte) (sampleRate : Z)
    (buffer : AudioBuffer) :
  Z.of_nat (length data) < 4294967296 ->
  decodeAudioData data sampleRate 1 = Normal buffer ->
  exists channel, buf_channels buffer = [channel] /\ floatToInt16 channel = data.
Proof.
  intros Hlen H.
  destruct (decodeAudioData_inv _ _ _ _ H) as (Heven & Hnc & Hrate & _).
  destruct (whole_frame _ _ _ _ H Hlen) as [Hframe Hsmall].
  rewrite (decodeAudioData_even data sampleRate 1 Heven Hnc Hrate Hframe Hsmall) in H.
  inversion H as [Hb]. cbn [buf_channels]. rewrite deinterleaved_mono.
  eexists. split; [reflexivity|].
  unfold floatToInt16, Int16Array_of_numbers. rewrite !map_map.
  rewrite <- (Int16Array_bytes_elements data Heven) at 2. f_equal.
  rewrite <- (map_id (int16_elements data)) at 2.
  apply map_ext_Forall.
  eapply Forall_impl; [apply int16_elements_range|].
  intros z Hz. apply ToInt16_rescaled, Hz.
Qed.

Lemma floatToInt16_decodeAudioData_witness :
  exists channel,
    buf_channels {| buf_sampleRate := 24000; buf_length := 2;
                    buf_channels := deinterleaved [x00; x80; xff; x7f] 1 |} = [channel]
    /\ floatToInt16 channel = [x00; x80; xff; x7f].
Proof.
  apply (floatToInt16_decodeAudioData [x00; x80; xff; x7f] 24000).
  - cbn. lia.
  - reflexivity.
Defined.

(** X8. Every sample of a decoded buffer is a number in [-1, 1): the
    decoder never produces [NaN], an infinity or a sample of magnitude
    above 1. *)
Theorem decodeAudioData_unit_samples (data : list byte) (sampleRate : Z)
    (numChannels : nat) (buffer : AudioBuffer) :
  Z.of_nat (length data) < 4294967296 ->
  decodeAudioData data sampleRate numChannels = Normal buffer ->
  Forall (Forall unit_sample) (buf_channels buffer).
Proof.
  intros Hlen H.
  destruct (decodeAudioData_inv _ _ _ _ H) as (Heven & Hnc & Hrate & _).
  destruct (whole_frame _ _ _ _ H Hlen) as [Hframe Hsmall].
  rewrite (decodeAudioData_even data sampleRate numChannels Heven Hnc Hrate Hframe Hsmall)
    in H.
  inversion H as [Hb]. cbn [buf_channels]. unfold deinterleaved.
  apply Forall_map, Forall_forall. intros c Hc. apply elem_of_seq in Hc.
  apply Forall_map, Forall_forall. intros i Hi. apply elem_of_seq in Hi.
  rewrite <- int16_elements_lookup.
  destruct (lookup_lt_is_Some_2 (int16_elements data) (i * numChannels + c)) as [z Hz].
  { rewrite length_int16_elements.
    assert (numChannels * (length data / 2 / numChannels) <= length data / 2)%nat
      by (apply Nat.Div0.mul_div_le).
    nia. }
  rewrite Hz.
  assert (Hr : int16_range z).
  { eapply Forall_lookup_1; [apply int16_elements_range|exact Hz]. }
  exists (inject_Z z / 32768)%Q. split; [reflexivity|].
  unfold int16_range in Hr. unfold Qdiv. change (/ 32768)%Q with (1 # 32768)%Q.
  assert (inject_Z (-32768) <= inject_Z z)%Q by (rewrite <- Zle_Qle; lia).
  assert (inject_Z z < inject_Z 32768)%Q by (rewrite <- Zlt_Qlt; lia).
  change (inject_Z (-32768)) with (-32768)%Q in *.
  change (inject_Z 32768) with 32768%Q in *. lra.
Qed.

Lemma decodeAudioData_unit_samples_witness :
  Forall (Forall unit_sample) (deinterleaved [x00; x80; xff; x7f; x01; x00; xff; xff] 2).
Proof.
  apply (decodeAudioData_unit_samples [x00; x80; xff; x7f; x01; x00; xff; xff] 24000 2
           {| buf_sampleRate := 24000; buf_length := 2;
              buf_channels := deinterleaved [x00; x80; xff; x7f; x01; x00; xff; xff] 2 |}).
  - cbn. lia.
  - reflexivity.
Defined.
End DecodedBuffers.

(** ** More on [writeString] and [createWavBlob] *)

Section WavFields.
Local Open Scope Z_scope.

Lemma length_tag (str : string) : length (tag str) = String.length str.
Proof. unfold tag. rewrite length_map. apply length_list_ascii. Qed.

Lemma tag_lookup (str : string) (k : nat) (c : ascii) :
  String.get k str = Some c -> tag str !! k = Some (byte_of_ascii c).
Proof.
  intros H. unfold tag. rewrite list_lookup_fmap, <- get_list_ascii, H. reflexivity.
Qed.

(** The loop of [writeString] after [k] characters: it has failed as soon
    as one of them fell outside the view. *)
Lemma writeString_loop (view : list byte) (offset : nat) (str : string) (k : nat) :
  (k <= String.length str)%nat ->
  for_loop_c k (fun i view => setUint8 view (offset + i) (charCodeAt str i)) view
  = if ((offset + k <=? length view) || (k =? 0))%nat
    then Normal (take offset view ++ take k (tag str) ++ drop (offset + k) view)
    else Throw RangeError.
Proof.
  induction k as [|k IH]; intros Hk.
  - rewrite orb_true_r. unfold for_loop_c. cbn [seq fold_left].
    rewrite Nat.add_0_r, take_0, app_nil_l, take_drop. reflexivity.
  - rewrite for_loop_c_S, IH by lia. rewrite orb_false_r.
    destruct (String.get k str) as [c|] eqn:Hc;
      [|rewrite get_list_ascii in Hc; apply lookup_ge_None_1 in Hc;
        rewrite length_list_ascii in Hc; lia].
    pose proof (tag_lookup str k c Hc) as Hb.
    destruct (Nat.leb_spec (offset + S k) (length view)) as [Hin|Hout].
    + replace (offset + k <=? length view)%nat with true by (symmetry; apply Nat.leb_le; lia).
      cbn [orb bind]. unfold setUint8.
      rewrite !length_app, !length_take, length_drop, length_tag.
      replace (offset + k + 1 <=?
               offset `min` length view
               + (k `min` String.length str + (length view - (offset + k))))%nat
        with true by (symmetry; apply Nat.leb_le; lia).
      unfold charCodeAt. rewrite Hc, ToUint8_charCode. f_equal.
      destruct (lookup_lt_is_Some_2 view (offset + k) ltac:(lia)) as [z Hz].
      rewrite (take_S_r _ _ _ Hb), (drop_S _ _ _ Hz), <- !app_assoc.
      rewrite insert_app_r_alt by (rewrite length_take; lia).
      rewrite insert_app_r_alt by (rewrite !length_take, length_tag; lia).
      rewrite !length_take, length_tag.
      replace (offset + k - offset `min` length view - k `min` String.length str)%nat
        with 0%nat by lia.
      cbn [insert list_insert app]. replace (offset + S k)%nat with (S (offset + k)) by lia.
      reflexivity.
    + destruct ((offset + k <=? length view) || (k =? 0))%nat eqn:Hprev; [|reflexivity].
      cbn [bind]. unfold setUint8.
      rewrite !length_app, !length_take, length_drop, length_tag.
      replace (offset + k + 1 <=?
               offset `min` length view
               + (k `min` String.length str + (length view - (offset + k))))%nat
        with false by (symmetry; apply Nat.leb_gt; lia).
      reflexivity.
Qed.

(** X9. [writeString] either overwrites the bytes at [offset] with the
    character codes of the string and leaves every other byte alone, or, when
    a character would fall outside the view, fails with [RangeError]; the
    empty string is written anywhere without error. *)
Theorem writeString_result (view : list byte) (offset : nat) (str : string) :
  writeString view offset str
  = if ((offset + String.length str <=? length view) || (String.length str =? 0))%nat
    then Normal (take offset view ++ tag str ++ drop (offset + String.length str) view)
    else Throw RangeError.
Proof.
  unfold writeString. rewrite writeString_loop by lia.
  rewrite <- length_tag, firstn_all. reflexivity.
Qed.

Lemma uint_le_le32 (v : Z) : uint_le (le32 v) = v mod 4294967296.
Proof.
  unfold le32. cbn [uint_le]. rewrite !to_N_byte_of_Z.
  Z.to_euclidean_division_equations; lia.
Qed.

Lemma uint_le_le16 (v : Z) : uint_le (le16 v) = v mod 65536.
Proof.
  unfold le16. cbn [uint_le]. rewrite !to_N_byte_of_Z.
  Z.to_euclidean_division_equations; lia.
Qed.

(** X10. [createWavBlob] never fails, and a reader of the header gets every
    value back reduced modulo the width of its field: the sizes and rates
    modulo 2^32, the channel count, block alignment and bit depth modulo
    2^16.  The RIFF size field is the length of the file less 8 as long as
    that is below 2^32. *)
Theorem createWavBlob_fields (pcmData : list byte) (sampleRate numChannels bitsPerSample : Z) :
  exists out : list byte,
    createWavBlob pcmData sampleRate numChannels bitsPerSample
    = Normal {| blob_bytes := out; blob_type := "audio/wav" |}
    /\ length out = (44 + length pcmData)%nat
    /\ uint_le (slice 4 4 out) = (Z.of_nat (length out) - 8) mod 4294967296
    /\ uint_le (slice 16 4 out) = 16
    /\ uint_le (slice 20 2 out) = 1
    /\ uint_le (slice 22 2 out) = numChannels mod 65536
    /\ uint_le (slice 24 4 out) = sampleRate mod 4294967296
    /\ uint_le (slice 28 4 out) = (sampleRate * numChannels * bitsPerSample ÷ 8) mod 4294967296
    /\ uint_le (slice 32 2 out) = (numChannels * bitsPerSample ÷ 8) mod 65536
    /\ uint_le (slice 34 2 out) = bitsPerSample mod 65536
    /\ uint_le (slice 40 4 out) = Z.of_nat (length pcmData) mod 4294967296
    /\ drop 44 out = pcmData.
Proof.
  eexists. split; [apply createWavBlob_header|].
  set (dataSize := Z.of_nat (length pcmData)).
  assert (Hlen : length (wav_header dataSize sampleRate numChannels bitsPerSample ++ pcmData)
                 = (44 + length pcmData)%nat) by (rewrite length_app; reflexivity).
  rewrite Hlen.
  repeat match goal with |- _ /\ _ => split end.
  - reflexivity.
  - change (slice 4 4 (wav_header dataSize sampleRate numChannels bitsPerSample ++ pcmData))
      with (le32 (36 + dataSize)).
    rewrite uint_le_le32. f_equal. subst dataSize. lia.
  - reflexivity.
  - reflexivity.
  - change (slice 22 2 (wav_header dataSize sampleRate numChannels bitsPerSample ++ pcmData))
      with (le16 numChannels).
    apply uint_le_le16.
  - change (slice 24 4 (wav_header dataSize sampleRate numChannels bitsPerSample ++ pcmData))
      with (le32 sampleRate).
    apply uint_le_le32.
  - change (slice 28 4 (wav_header dataSize sampleRate numChannels bitsPerSample ++ pcmData))
      with (le32 (sampleRate * numChannels * bitsPerSample ÷ 8)).
    apply uint_le_le32.
  - change (slice 32 2 (wav_header dataSize sampleRate numChannels bitsPerSample ++ pcmData))
      with (le16 (numChannels * bitsPerSample ÷ 8)).
    apply uint_le_le16.
  - change (slice 34 2 (wav_header dataSize sampleRate numChannels bitsPerSample ++ pcmData))
      with (le16 bitsPerSample).
    apply uint_le_le16.
  - change (slice 40 4 (wav_header dataSize sampleRate numChannels bitsPerSample ++ pcmData))
      with (le32 dataSize).
    apply uint_le_le32.
  - reflexivity.
Qed.
End WavFields.

(** ** The speech panel *)

Section Speech.

Lemma decode_empty : decode EmptyString = Normal [].
Proof. reflexivity. Qed.

Lemma download_of (audio : string) (pcm : list byte) (st : TtsPanel.Panel) :
  TtsPanel.generatedAudio st = Some audio ->
  String.eqb audio EmptyString = false ->
  decode audio = Normal pcm ->
  TtsPanel.handleDownload st
  = TtsPanel.perform
      (TtsPanel.Download
         {| blob_bytes := wav_header (Z.of_nat (length pcm)) 24000 1 16 ++ pcm;
            blob_type := "audio/wav" |}
         "jarvis-speech.wav") st.
Proof.
  intros Haudio Hne Hdec. unfold TtsPanel.handleDownload.
  rewrite Haudio, Hne, Hdec. cbn [mbind completion_bind bind].
  rewrite createWavBlob_header. reflexivity.
Qed.

(** X11. With the audio of the last reply stored as the base64 text of
    some PCM bytes, [handleDownload] hands the browser one file named
    jarvis-speech.wav of type audio/wav: the 44-byte header for 24000 Hz,
    one channel, 16 bits, followed by exactly those bytes.  Nothing else
    of the panel changes. *)
Theorem handleDownload_wav (pcm : list byte) (st : TtsPanel.Panel) :
  pcm <> [] ->
  TtsPanel.generatedAudio st = Some (encode pcm) ->
  TtsPanel.handleDownload st
  = TtsPanel.perform
      (TtsPanel.Download
         {| blob_bytes := wav_header (Z.of_nat (length pcm)) 24000 1 16 ++ pcm;
            blob_type := "audio/wav" |}
         "jarvis-speech.wav") st.
Proof.
  intros Hne Haudio.
  apply (download_of (encode pcm)); [exact Haudio|apply encode_nonempty, Hne|].
  apply decode_encode_bytes.
Qed.

Lemma handleDownload_wav_witness :
  let st := {| TtsPanel.text := "hi"; TtsPanel.isLoading := false; TtsPanel.error := None;
               TtsPanel.generatedAudio := Some (encode [x01; x02]);
               TtsPanel.audioContextRef := true; TtsPanel.calls := [] |} in
  TtsPanel.calls (TtsPanel.handleDownload st)
  = [TtsPanel.Download
       {| blob_bytes := wav_header 2 24000 1 16 ++ [x01; x02]; blob_type := "audio/wav" |}
       "jarvis-speech.wav"].
Proof.
  intros st.
  rewrite (handleDownload_wav [x01; x02] st); [reflexivity|discriminate|reflexivity].
Defined.

(** X12. For a text that is not blank, [handleSpeak] ends with the
    loading flag down, whatever the reply, and without an error message
    exactly when it has started a buffer: a request never fails silently,
    and never reports a failure after starting the sound. *)
Theorem handleSpeak_error_or_sound (r : TtsPanel.response) (st : TtsPanel.Panel) :
  blank (TtsPanel.text st) = false ->
  let st' := TtsPanel.handleSpeak r st in
  TtsPanel.isLoading st' = false /\
  ((TtsPanel.error st' = None
    /\ exists buffer, last (TtsPanel.calls st') = Some (TtsPanel.SourceStart buffer))
   \/ (TtsPanel.error st' = TtsPanel.failed
       /\ (TtsPanel.calls st' = TtsPanel.calls st
           \/ TtsPanel.calls st' = TtsPanel.calls st ++ [TtsPanel.NewAudioContext]))).
Proof.
  intros Htext. cbv zeta. unfold TtsPanel.handleSpeak. rewrite Htext.
  split; [reflexivity|].
  destruct r as [|[base64Audio|]]; [right; split; [reflexivity|left; reflexivity]| |
                                     right; split; [reflexivity|left; reflexivity]].
  destruct (String.eqb base64Audio EmptyString);
    [right; split; [reflexivity|left; reflexivity]|].
  destruct (TtsPanel.audioContextRef st) eqn:Hctx;
    cbn -[decode decodeAudioData]; rewrite Hctx;
    destruct (bytes ← decode base64Audio; decodeAudioData bytes 24000 1) as [buffer|e];
    cbn -[decode decodeAudioData].
  - left. split; [reflexivity|]. exists buffer. apply last_snoc.
  - right. split; [reflexivity|left; reflexivity].
  - left. split; [reflexivity|]. exists buffer. apply last_snoc.
  - right. split; [reflexivity|right; reflexivity].
Qed.

Lemma handleSpeak_error_or_sound_witness :
  let st := {| TtsPanel.text := "hi"; TtsPanel.isLoading := false; TtsPanel.error := None;
               TtsPanel.generatedAudio := None; TtsPanel.audioContextRef := false;
               TtsPanel.calls := [] |} in
  let st' := TtsPanel.handleSpeak (TtsPanel.Candidates (Some (encode [x01]))) st in
  TtsPanel.isLoading st' = false /\
  ((TtsPanel.error st' = None
    /\ exists buffer, last (TtsPanel.calls st') = Some (TtsPanel.SourceStart buffer))
   \/ (TtsPanel.error st' = TtsPanel.failed
       /\ (TtsPanel.calls st' = TtsPanel.calls st
           \/ TtsPanel.calls st' = TtsPanel.calls st ++ [TtsPanel.NewAudioContext]))).
Proof.
  intros st. apply (handleSpeak_error_or_sound _ st). reflexivity.
Defined.

(** X13. The reply is stored before it is decoded for playback, so it can
    be downloaded even when playback failed: after [handleSpeak] on a reply
    that carries the base64 text of some PCM bytes (an odd number of them,
    say, which the decoder refuses), [handleDownload] saves the WAV file of
    those bytes. *)
Theorem handleDownload_after_handleSpeak (pcm : list byte) (st : TtsPanel.Panel) :
  pcm <> [] ->
  blank (TtsPanel.text st) = false ->
  let st' := TtsPanel.handleSpeak (TtsPanel.Candidates (Some (encode pcm))) st in
  TtsPanel.handleDownload st'
  = TtsPanel.perform
      (TtsPanel.Download
         {| blob_bytes := wav_header (Z.of_nat (length pcm)) 24000 1 16 ++ pcm;
            blob_type := "audio/wav" |}
         "jarvis-speech.wav") st'
  /\ (Nat.even (length pcm) = false -> TtsPanel.error st' = TtsPanel.failed).
Proof.
  intros Hne Htext. cbv zeta.
  assert (Hstored : TtsPanel.generatedAudio
                      (TtsPanel.handleSpeak (TtsPanel.Candidates (Some (encode pcm))) st)
                    = Some (encode pcm)).
  { unfold TtsPanel.handleSpeak. rewrite Htext, (encode_nonempty pcm Hne).
    destruct (TtsPanel.audioContextRef st) eqn:Hctx;
      cbn -[encode decode decodeAudioData]; rewrite Hctx;
      destruct (bytes ← decode (encode pcm); decodeAudioData bytes 24000 1);
      reflexivity. }
  split.
  - apply (download_of (encode pcm));
      [exact Hstored|apply encode_nonempty, Hne|apply decode_encode_bytes].
  - intros Hodd. unfold TtsPanel.handleSpeak.
    rewrite Htext, (encode_nonempty pcm Hne), decode_encode_bytes.
    cbn [mbind completion_bind bind]. rewrite decodeAudioData_odd by exact Hodd.
    destruct (TtsPanel.audioContextRef st) eqn:Hctx; cbn; rewrite ?Hctx; reflexivity.
Qed.

Lemma handleDownload_after_handleSpeak_witness :
  let st := {| TtsPanel.text := "hi"; TtsPanel.isLoading := false; TtsPanel.error := None;
               TtsPanel.generatedAudio := None; TtsPanel.audioContextRef := false;
               TtsPanel.calls := [] |} in
  let st' := TtsPanel.handleSpeak (TtsPanel.Candidates (Some (encode [x01]))) st in
  TtsPanel.error st' = TtsPanel.failed
  /\ last (TtsPanel.calls (TtsPanel.handleDownload st'))
     = Some (TtsPanel.Download
               {| blob_bytes := wav_header 1 24000 1 16 ++ [x01]; blob_type := "audio/wav" |}
               "jarvis-speech.wav").
Proof.
  intros st st'.
  destruct (handleDownload_after_handleSpeak [x01] st ltac:(discriminate) eq_refl)
    as [Hfile Herr].
  split; [apply Herr; reflexivity|].
  fold st' in Hfile. rewrite Hfile. reflexivity.
Defined.

(** X14. A request that fails before any audio arrives (the service
    rejects it, or answers without audio) forgets the audio of the reply
    before: [handleDownload] then does nothing. *)
Theorem handleDownload_after_failure (r : TtsPanel.response) (st : TtsPanel.Panel) :
  blank (TtsPanel.text st) = false ->
  r = TtsPanel.Rejected \/ r = TtsPanel.Candidates None
  \/ r = TtsPanel.Candidates (Some EmptyString) ->
  TtsPanel.generatedAudio (TtsPanel.handleSpeak r st) = None
  /\ TtsPanel.handleDownload (TtsPanel.handleSpeak r st) = TtsPanel.handleSpeak r st.
Proof.
  intros Htext Hr. unfold TtsPanel.handleSpeak. rewrite Htext.
  destruct Hr as [-> | [-> | ->]]; split; reflexivity.
Qed.

Lemma handleDownload_after_failure_witness :
  let st := {| TtsPanel.text := "hi"; TtsPanel.isLoading := false; TtsPanel.error := None;
               TtsPanel.generatedAudio := Some (encode [x01; x02]);
               TtsPanel.audioContextRef := true; TtsPanel.calls := [] |} in
  TtsPanel.calls (TtsPanel.handleDownload (TtsPanel.handleSpeak TtsPanel.Rejected st)) = [].
Proof.
  intros st.
  rewrite (proj2 (handleDownload_after_failure TtsPanel.Rejected st eq_refl (or_introl eq_refl))).
  reflexivity.
Defined.
End Speech.

(** ** The live panel under any order of events *)

Section Stages.
Local Open Scope Q_scope.

Lemma onmessage_stages (session : LiveSession) (currentTime : Q)
    (message : LiveServerMessage) (st : Panel) :
  onmessage session currentTime message st
  = match schedule currentTime message (transcribe session message st) with
    | (st', None) => (interrupt message st', None)
    | thrown => thrown
    end.
Proof.
  unfold onmessage, schedule, transcribe, interrupt.
  transcript_cases message;
    cbn -[decode decodeAudioData Math_max Qplus Set_add String.eqb stopAll];
    (destruct (audioData message) as [data|];
     [destruct (outputAudioContextRef st);
      [destruct (String.eqb data EmptyString);
       [|destruct (bytes ← decode data; decodeAudioData bytes 24000 1)]|]|]);
    cbn -[decode decodeAudioData Math_max Qplus Set_add String.eqb stopAll];
    try reflexivity;
    destruct (interrupted message); reflexivity.
Qed.

(** The transcript stage touches the two transcript fields only. *)
Lemma transcribe_playback (session : LiveSession) (message : LiveServerMessage) (st : Panel) :
  let st' := transcribe session message st in
  fresh st' = fresh st /\ calls st' = calls st
  /\ audioSourcesRef st' = audioSourcesRef st
  /\ nextStartTimeRef st' = nextStartTimeRef st
  /\ outputAudioContextRef st' = outputAudioContextRef st
  /\ sessionPromiseRef st' = sessionPromiseRef st.
Proof.
  cbv zeta. unfold transcribe. transcript_cases message; repeat split; reflexivity.
Qed.

(** The audio stage: nothing to play, a chunk that cannot be decoded, or
    one more source. *)
Lemma schedule_cases (currentTime : Q) (message : LiveServerMessage) (st : Panel) :
  schedule currentTime message st = (st, None)
  \/ (exists e,
        schedule currentTime message st
        = (set_nextStartTimeRef (Math_max (nextStartTimeRef st) currentTime) st, Some e))
  \/ (exists buffer st',
        schedule currentTime message st = (st', None)
        /\ fresh st' = S (fresh st)
        /\ calls st'
           = calls st
             ++ [SourceStart (fresh st) (Math_max (nextStartTimeRef st) currentTime) buffer]
        /\ audioSourcesRef st' = Set_add (fresh st) (audioSourcesRef st)
        /\ nextStartTimeRef st'
           = Math_max (nextStartTimeRef st) currentTime + duration buffer).
Proof.
  unfold schedule.
  destruct (audioData message) as [data|]; [|left; reflexivity].
  destruct (outputAudioContextRef st) as [ctx|]; [|left; reflexivity].
  destruct (String.eqb data EmptyString); [left; reflexivity|].
  destruct (bytes ← decode data; decodeAudioData bytes 24000 1) as [buffer|e].
  - right. right. exists buffer. eexists. split; [reflexivity|].
    repeat split; reflexivity.
  - right. left. exists e. reflexivity.
Qed.

Lemma interrupt_cases (message : LiveServerMessage) (st : Panel) :
  let st' := interrupt message st in
  (interrupted message = false /\ st' = st)
  \/ (interrupted message = true
      /\ fresh st' = fresh st
      /\ calls st' = calls st ++ map SourceStop (audioSourcesRef st)
      /\ audioSourcesRef st' = []
      /\ nextStartTimeRef st' = 0).
Proof.
  cbv zeta. unfold interrupt. destruct (interrupted message); [right|left; auto].
  destruct (interrupted_branch st) as (H1 & H2 & H3 & H4 & _). auto.
Qed.
End Stages.

Section ActiveSources.

Lemma named_below_le (n m : nat) (c : call) : n <= m -> named_below n c -> named_below m c.
Proof. destruct c; cbn; lia. Qed.

Lemma below_not_stopped (n : nat) (cs : list call) :
  Forall (named_below n) cs -> List.filter (stops n) cs = [].
Proof.
  induction 1 as [|c cs Hc _ IH]; [reflexivity|]. cbn [List.filter]. rewrite IH.
  destruct c; cbn in *; try reflexivity.
  destruct (Nat.eqb_spec n source); [lia|reflexivity].
Qed.

Lemma below_not_started (n : nat) (cs : list call) :
  Forall (named_below n) cs -> List.filter (starts n) cs = [].
Proof.
  induction 1 as [|c cs Hc _ IH]; [reflexivity|]. cbn [List.filter]. rewrite IH.
  destruct c; cbn in *; try reflexivity.
  destruct (Nat.eqb_spec n source); [lia|reflexivity].
Qed.

Lemma started_below (n s : nat) (cs : list call) :
  Forall (named_below n) cs -> existsb (starts s) cs = true -> s < n.
Proof.
  intros Hall Hex. apply existsb_exists in Hex. destruct Hex as (c & Hin & Hc).
  rewrite List.Forall_forall in Hall. specialize (Hall c Hin).
  destruct c; cbn in *; try discriminate.
  apply Nat.eqb_eq in Hc. lia.
Qed.

Lemma filter_nil_existsb {A : Type} (f : A -> bool) (l : list A) :
  existsb f l = false -> List.filter f l = [].
Proof.
  induction l as [|a l IH]; [reflexivity|]. cbn. destruct (f a); [discriminate|auto].
Qed.

Lemma existsb_filter_nil {A : Type} (f : A -> bool) (l : list A) :
  List.filter f l = [] -> existsb f l = false.
Proof.
  induction l as [|a l IH]; [reflexivity|]. cbn. destruct (f a); [discriminate|auto].
Qed.

Lemma stops_of_set (s : nat) (l : list nat) :
  NoDup l ->
  length (List.filter (stops s) (map SourceStop l)) <= 1
  /\ (~ In s l -> List.filter (stops s) (map SourceStop l) = []).
Proof.
  induction 1 as [|x l Hx Hl IH]; [cbn; auto|].
  rewrite list_elem_of_In in Hx.
  cbn [map List.filter stops]. destruct (Nat.eqb_spec s x) as [->|Hne].
  - destruct IH as [_ IH]. rewrite (IH Hx). cbn. split; [lia|]. intros H. exfalso. apply H. now left.
  - destruct IH as [IH1 IH2]. split; [exact IH1|].
    intros H. apply IH2. intros Hin. apply H. now right.
Qed.

Lemma starts_of_stops (s : nat) (l : list nat) : List.filter (starts s) (map SourceStop l) = [].
Proof. induction l as [|x l IH]; [reflexivity|exact IH]. Qed.

(** Calls that name no source. *)
Lemma no_source_filter (cs : list call) (s : nat) :
  Forall (fun c => named_below 0 c
                   /\ forall s, stops s c = false /\ starts s c = false) cs ->
  List.filter (stops s) cs = [] /\ List.filter (starts s) cs = [].
Proof.
  induction 1 as [|c cs' [_ Hc] _ [IH1 IH2]]; [split; reflexivity|].
  cbn. rewrite (proj1 (Hc s)), (proj2 (Hc s)). split; assumption.
Qed.

Lemma sources_ok_calls (st st' : Panel) (cs : list call) :
  fresh st <= fresh st' ->
  calls st' = calls st ++ cs ->
  Forall (fun c => named_below 0 c
                   /\ forall s, stops s c = false /\ starts s c = false) cs ->
  audioSourcesRef st' = audioSourcesRef st ->
  sources_ok st -> sources_ok st'.
Proof.
  intros Hfresh Hcalls Hcs Hset [Hbelow Hnodup Hstarted Hrunning Hstopped Hstart1].
  assert (Hstops : forall s, List.filter (stops s) cs = [])
    by (intros s; apply no_source_filter, Hcs).
  assert (Hstarts : forall s, List.filter (starts s) cs = [])
    by (intros s; apply no_source_filter, Hcs).
  constructor; rewrite ?Hcalls, ?Hset.
  - apply List.Forall_app. split.
    + eapply List.Forall_impl; [|exact Hbelow]. intros c. apply named_below_le, Hfresh.
    + eapply List.Forall_impl; [|exact Hcs]. intros c [Hc _].
      eapply named_below_le; [|exact Hc]. lia.
  - exact Hnodup.
  - intros s Hs. rewrite existsb_app, (Hstarted s Hs). reflexivity.
  - intros s Hs. rewrite existsb_app, (Hrunning s Hs).
    apply existsb_filter_nil, Hstops.
  - intros s. rewrite List.filter_app, length_app, Hstops. cbn. specialize (Hstopped s). lia.
  - intros s. rewrite List.filter_app, length_app, Hstarts. cbn. specialize (Hstart1 s). lia.
Qed.

Lemma sources_ok_same (st st' : Panel) :
  fresh st <= fresh st' -> calls st' = calls st ->
  audioSourcesRef st' = audioSourcesRef st ->
  sources_ok st -> sources_ok st'.
Proof.
  intros Hfresh Hcalls Hset. apply (sources_ok_calls st st' []); auto.
  rewrite app_nil_r. exact Hcalls.
Qed.

(** One more source, named by the next fresh number. *)
Lemma sources_ok_start (st st' : Panel) (when : Q) (buffer : AudioBuffer) :
  fresh st' = S (fresh st) ->
  calls st' = calls st ++ [SourceStart (fresh st) when buffer] ->
  audioSourcesRef st' = Set_add (fresh st) (audioSourcesRef st) ->
  sources_ok st -> sources_ok st'.
Proof.
  intros Hfresh Hcalls Hset [Hbelow Hnodup Hstarted Hrunning Hstopped Hstart1].
  constructor; rewrite ?Hcalls, ?Hset, ?Hfresh.
  - apply List.Forall_app. split.
    + eapply List.Forall_impl; [|exact Hbelow]. intros c. apply named_below_le. lia.
    + constructor; [cbn; lia|constructor].
  - unfold Set_add. destruct (existsb (Nat.eqb (fresh st)) (audioSourcesRef st)) eqn:E;
      [exact Hnodup|].
    apply NoDup_app. split; [exact Hnodup|]. split; [|apply NoDup_singleton].
    intros x Hx Hx'. apply list_elem_of_singleton in Hx'. subst x.
    apply list_elem_of_In in Hx.
    assert (existsb (Nat.eqb (fresh st)) (audioSourcesRef st) = true); [|congruence].
    apply existsb_exists. exists (fresh st). split; [exact Hx|apply Nat.eqb_refl].
  - intros s Hs. rewrite existsb_app. apply Set_add_In in Hs. destruct Hs as [->|Hs].
    + cbn. rewrite Nat.eqb_refl. apply orb_true_r.
    + rewrite (Hstarted s Hs). reflexivity.
  - intros s Hs. rewrite existsb_app. cbn. rewrite orb_false_r.
    apply Set_add_In in Hs. destruct Hs as [->|Hs]; [|exact (Hrunning s Hs)].
    apply existsb_filter_nil, below_not_stopped, Hbelow.
  - intros s. rewrite List.filter_app, length_app. cbn. specialize (Hstopped s). lia.
  - intros s. rewrite List.filter_app, length_app. cbn [List.filter starts].
    destruct (Nat.eqb_spec s (fresh st)) as [->|Hne].
    + rewrite (below_not_started _ _ Hbelow). cbn. lia.
    + cbn. specialize (Hstart1 s). lia.
Qed.

(** Every source of the set stopped, and the set emptied. *)
Lemma sources_ok_stopAll (st st' : Panel) (cs : list call) :
  fresh st' = fresh st ->
  calls st' = calls st ++ cs ++ map SourceStop (audioSourcesRef st) ->
  Forall (fun c => named_below 0 c
                   /\ forall s, stops s c = false /\ starts s c = false) cs ->
  audioSourcesRef st' = [] ->
  sources_ok st -> sources_ok st'.
Proof.
  intros Hfresh Hcalls Hcs Hset Hok.
  pose (mid := perform_all cs st).
  assert (Hmid : sources_ok mid).
  { apply (sources_ok_calls st mid cs); auto. }
  clear Hok Hcs. destruct Hmid as [Hbelow Hnodup Hstarted Hrunning Hstopped Hstart1].
  change (calls mid) with (calls st ++ cs) in *.
  change (audioSourcesRef mid) with (audioSourcesRef st) in *.
  change (fresh mid) with (fresh st) in *.
  constructor; rewrite ?Hcalls, ?Hset, ?Hfresh, ?app_assoc.
  - apply List.Forall_app. split; [exact Hbelow|].
    apply List.Forall_forall. intros c Hc. apply in_map_iff in Hc.
    destruct Hc as (s & <- & Hs). cbn. eapply started_below; [exact Hbelow|auto].
  - constructor.
  - intros s [].
  - intros s [].
  - intros s. rewrite List.filter_app, length_app.
    destruct (stops_of_set s (audioSourcesRef st) Hnodup) as [Hone Hnone].
    destruct (in_dec Nat.eq_dec s (audioSourcesRef st)) as [Hin|Hout].
    + rewrite (filter_nil_existsb _ _ (Hrunning s Hin)). cbn. exact Hone.
    + rewrite (Hnone Hout). specialize (Hstopped s). cbn. lia.
  - intros s. rewrite List.filter_app, length_app, starts_of_stops.
    specialize (Hstart1 s). cbn. lia.
Qed.

Lemma sources_ok_delete (source : nat) (st st' : Panel) :
  fresh st' = fresh st -> calls st' = calls st ->
  audioSourcesRef st' = Set_delete source (audioSourcesRef st) ->
  sources_ok st -> sources_ok st'.
Proof.
  intros Hfresh Hcalls Hset [Hbelow Hnodup Hstarted Hrunning Hstopped Hstart1].
  constructor; rewrite ?Hcalls, ?Hset, ?Hfresh; auto.
  - unfold Set_delete. apply NoDup_ListNoDup, List.NoDup_filter, NoDup_ListNoDup, Hnodup.
  - intros s Hs. apply Hstarted. unfold Set_delete in Hs. apply filter_In in Hs. tauto.
  - intros s Hs. apply Hrunning. unfold Set_delete in Hs. apply filter_In in Hs. tauto.
Qed.
End ActiveSources.

Section Reachable.
Local Open Scope Q_scope.

Ltac no_source :=
  repeat (constructor; [split; [exact I|intros; split; reflexivity]|]); try constructor.

Lemma run_invariant (P : Panel -> Prop) (evs : list event) (st : Panel) :
  (forall st ev, P st -> P (handle st ev)) -> P st -> P (run evs st).
Proof.
  intros Hstep. revert st. induction evs as [|ev evs IH]; intros st Hst; [exact Hst|].
  apply IH, Hstep, Hst.
Qed.

Lemma releases_name_no_source (st : Panel) :
  Forall (fun c => named_below 0 c
                   /\ forall s, stops s c = false /\ starts s c = false)
    (session_close st ++ repeated_releases st).
Proof.
  unfold session_close, repeated_releases.
  destruct (sessionPromiseRef st), (mediaStreamRef st), (scriptProcessorRef st),
    (inputAudioContextRef st), (outputAudioContextRef st); cbn [app]; no_source.
Qed.

Lemma stopConversation_sources_ok (st : Panel) :
  sources_ok st -> sources_ok (stopConversation st).
Proof.
  intros Hok. rewrite stopConversation_result.
  apply (sources_ok_stopAll st _ (session_close st ++ repeated_releases st));
    [reflexivity| |apply releases_name_no_source|reflexivity|exact Hok].
  cbn [calls]. rewrite <- !app_assoc. reflexivity.
Qed.

Lemma interrupt_sources_ok (message : LiveServerMessage) (st : Panel) :
  sources_ok st -> sources_ok (interrupt message st).
Proof.
  intros Hok. destruct (interrupt_cases message st) as [[_ ->]|(_ & Hf & Hc & Hs & _)];
    [exact Hok|].
  apply (sources_ok_stopAll st _ []); auto.
Qed.

Lemma handle_sources_ok (st : Panel) (ev : event) :
  sources_ok st -> sources_ok (handle st ev).
Proof.
  intros Hok. destruct ev as [granted| |session|inputData|session t message|source| |];
    cbn [handle].
  - unfold startConversation. destruct (isLive st); [exact Hok|].
    destruct granted.
    + apply (sources_ok_calls st _ [GetUserMedia; Connect (S (S (S (fresh st))))]);
        [cbn; lia| |no_source|reflexivity|exact Hok].
      cbn. rewrite <- app_assoc. reflexivity.
    + apply (sources_ok_calls st _ [GetUserMedia]);
        [cbn; lia|reflexivity|no_source|reflexivity|exact Hok].
  - apply stopConversation_sources_ok, Hok.
  - apply (sources_ok_same st); [cbn; lia|reflexivity|reflexivity|exact Hok].
  - unfold onaudioprocess. destruct (sessionPromiseRef st) as [session|]; [|exact Hok].
    eapply (sources_ok_calls st _ [_]);
      [cbn; lia|reflexivity|no_source|reflexivity|exact Hok].
  - rewrite onmessage_stages.
    destruct (transcribe_playback session message st) as (Tf & Tc & Ts & _).
    assert (H1 : sources_ok (transcribe session message st)).
    { apply (sources_ok_same st); [lia|auto..]. }
    destruct (schedule_cases t message (transcribe session message st))
      as [-> | [[e ->] | (buffer & st' & -> & Hf & Hc & Hs & _)]]; cbn [fst].
    + apply interrupt_sources_ok, H1.
    + revert H1. apply sources_ok_same; [cbn; lia|reflexivity|reflexivity].
    + apply interrupt_sources_ok. eapply sources_ok_start; eauto.
  - revert Hok. apply (sources_ok_delete source); reflexivity.
  - unfold onerror. apply stopConversation_sources_ok.
    revert Hok. apply sources_ok_same; [cbn; lia|reflexivity|reflexivity].
  - apply stopConversation_sources_ok, Hok.
Qed.

Lemma initial_sources_ok : sources_ok initial.
Proof.
  constructor; cbn; try constructor; try (intros s []); auto.
Qed.

(** X15. Whatever the order of the clicks, callbacks and messages, from
    the first render on: the sources of the active set are distinct, each of
    them has been started and none has been stopped, and no source is ever
    started twice or stopped twice. *)
Theorem sources_stopped_once (evs : list event) :
  let st := run evs initial in
  NoDup (audioSourcesRef st)
  /\ (forall s, In s (audioSourcesRef st) ->
        existsb (starts s) (calls st) = true /\ existsb (stops s) (calls st) = false)
  /\ (forall s, (length (List.filter (starts s) (calls st)) <= 1)%nat
                /\ (length (List.filter (stops s) (calls st)) <= 1)%nat).
Proof.
  cbv zeta.
  destruct (run_invariant sources_ok evs initial handle_sources_ok initial_sources_ok)
    as [_ Hnodup Hstarted Hrunning Hstopped Hstart1].
  repeat split; auto.
Qed.

Lemma sources_stopped_once_witness :
  let st := run [StartConversation true;
                 OnMessage the_session 5 (audio_chunk silence);
                 OnMessage the_session 6 interruption;
                 StopConversation] initial in
  audioSourcesRef st = []
  /\ (length (List.filter (starts 4%nat) (calls st)) <= 1)%nat
  /\ (length (List.filter (stops 4%nat) (calls st)) <= 1)%nat.
Proof.
  intros st. split; [reflexivity|].
  exact (proj2 (proj2 (sources_stopped_once
                         [StartConversation true;
                          OnMessage the_session 5 (audio_chunk silence);
                          OnMessage the_session 6 interruption;
                          StopConversation])) 4%nat).
Defined.

Lemma scheduled_no_source (cs : list call) :
  Forall (fun c => named_below 0 c
                   /\ forall s, stops s c = false /\ starts s c = false) cs ->
  scheduled cs = [].
Proof.
  induction 1 as [|c cs [_ Hc] _ IH]; [reflexivity|].
  destruct c; cbn; try exact IH.
  destruct (Hc source) as [_ Hs]. cbn in Hs. rewrite Nat.eqb_refl in Hs. discriminate.
Qed.

Lemma scheduled_stops (l : list nat) : scheduled (map SourceStop l) = [].
Proof. induction l as [|x l IH]; [reflexivity|exact IH]. Qed.

Lemma duration_nonneg (buffer : AudioBuffer) : 0 <= duration buffer.
Proof. unfold duration, Qle. cbn. lia. Qed.

Lemma stopConversation_quiet (st : Panel) :
  scheduled (calls (stopConversation st)) = scheduled (calls st)
  /\ nextStartTimeRef (stopConversation st) = nextStartTimeRef st.
Proof.
  rewrite stopConversation_result. cbn [calls nextStartTimeRef].
  pose proof (scheduled_no_source _ (releases_name_no_source st)) as H.
  rewrite scheduled_app in H. apply app_eq_nil in H. destruct H as [Hclose Hrel].
  rewrite !scheduled_app, scheduled_stops, Hclose, Hrel, !app_nil_r.
  split; reflexivity.
Qed.

(** What an event other than a start or an interruption does to the
    schedule: nothing, or one more buffer at the cursor or later. *)
Lemma quiet_effect (st : Panel) (ev : event) :
  quiet ev = true ->
  let st' := handle st ev in
  (scheduled (calls st') = scheduled (calls st)
   /\ nextStartTimeRef st <= nextStartTimeRef st')
  \/ (exists when d,
        scheduled (calls st') = scheduled (calls st) ++ [(when, d)]
        /\ nextStartTimeRef st <= when /\ 0 <= d
        /\ nextStartTimeRef st' = when + d).
Proof.
  intros Hq. cbv zeta.
  destruct ev as [granted| |session|inputData|session t message|source| |];
    cbn [handle]; cbn [quiet] in Hq.
  - discriminate.
  - left. destruct (stopConversation_quiet st) as [-> ->]. split; [reflexivity|apply Qle_refl].
  - left. split; [reflexivity|apply Qle_refl].
  - left. unfold onaudioprocess. destruct (sessionPromiseRef st);
      (split; [|apply Qle_refl]); [|reflexivity].
    cbn [calls perform]. rewrite scheduled_app. apply app_nil_r.
  - apply negb_true_iff in Hq. rewrite onmessage_stages.
    destruct (transcribe_playback session message st) as (_ & Tc & _ & Tn & _).
    assert (Hint : forall st1, interrupt message st1 = st1)
      by (intros st1; unfold interrupt; rewrite Hq; reflexivity).
    destruct (Math_max_spec (nextStartTimeRef st) t) as (Hmax & _).
    destruct (schedule_cases t message (transcribe session message st))
      as [-> | [[e ->] | (buffer & st' & -> & _ & Hc & _ & Hn)]]; cbn [fst];
      rewrite ?Hint.
    + left. rewrite Tc, Tn. split; [reflexivity|apply Qle_refl].
    + left. cbn [calls nextStartTimeRef set_nextStartTimeRef]. rewrite Tc, Tn.
      split; [reflexivity|exact Hmax].
    + right. exists (Math_max (nextStartTimeRef st) t), (duration buffer).
      rewrite Hc, Hn, Tc, Tn, scheduled_app.
      repeat split; [exact Hmax|apply duration_nonneg].
  - left. split; [reflexivity|apply Qle_refl].
  - left. unfold onerror.
    destruct (stopConversation_quiet
                (setError (Some "An error occurred during the session.") st)) as [-> ->].
    split; [reflexivity|apply Qle_refl].
  - left. unfold onclose. destruct (stopConversation_quiet st) as [-> ->].
    split; [reflexivity|apply Qle_refl].
Qed.

Lemma no_overlap_cons (when d : Q) (l : list (Q * Q)) :
  Forall (fun p => when + d <= fst p) l -> no_overlap l -> no_overlap ((when, d) :: l).
Proof.
  intros Hall Hl. cbn [no_overlap]. split; [|exact Hl].
  destruct l as [|[next d'] r]; [exact I|].
  apply List.Forall_inv in Hall. exact Hall.
Qed.

(** X16. As long as the conversation is neither restarted nor
    interrupted, playback never overlaps, whatever the number of chunks,
    the clock readings at which they arrive and the other events in
    between: every buffer scheduled from a state on starts at the cursor of
    that state or later, and each one starts when the one before has ended,
    or later. *)
Theorem playback_never_overlaps (evs : list event) (st : Panel) :
  forallb quiet evs = true ->
  exists l,
    scheduled (calls (run evs st)) = scheduled (calls st) ++ l
    /\ no_overlap l
    /\ Forall (fun p => nextStartTimeRef st <= fst p) l
    /\ nextStartTimeRef st <= nextStartTimeRef (run evs st).
Proof.
  revert st. induction evs as [|ev evs IH]; intros st Hq.
  - exists []. cbn. rewrite app_nil_r.
    split; [reflexivity|]. split; [exact I|]. split; [constructor|apply Qle_refl].
  - cbn [forallb] in Hq. apply andb_true_iff in Hq. destruct Hq as [Hev Hevs].
    destruct (IH (handle st ev) Hevs) as (l & Hl & Hno & Hafter & Hcur).
    change (run (ev :: evs) st) with (run evs (handle st ev)).
    destruct (quiet_effect st ev Hev) as [[Hs Hn] | (when & d & Hs & Hw & Hd & Hn)].
    + exists l. rewrite Hl, Hs. split; [reflexivity|]. split; [exact Hno|]. split.
      * eapply List.Forall_impl; [|exact Hafter]. intros p Hp. cbv beta in *.
        eapply Qle_trans; [exact Hn|exact Hp].
      * eapply Qle_trans; [exact Hn|exact Hcur].
    + exists ((when, d) :: l). rewrite Hl, Hs, <- app_assoc. rewrite Hn in Hafter, Hcur.
      assert (Hwd : when <= when + d).
      { rewrite <- (Qplus_0_r when) at 1. apply Qplus_le_r, Hd. }
      split; [reflexivity|]. split; [|split].
      * apply no_overlap_cons; [exact Hafter|exact Hno].
      * constructor; [exact Hw|].
        eapply List.Forall_impl; [|exact Hafter]. intros p Hp. cbv beta in *.
        eapply Qle_trans; [exact Hw|]. eapply Qle_trans; [exact Hwd|exact Hp].
      * eapply Qle_trans; [exact Hw|]. eapply Qle_trans; [exact Hwd|exact Hcur].
Qed.

Lemma playback_never_overlaps_witness :
  exists l,
    scheduled
      (calls (run [OnMessage the_session 5 (audio_chunk silence);
                   OnAudioProcess [Fin 0];
                   OnMessage the_session 2 (audio_chunk silence)] live))
    = scheduled (calls live) ++ l
    /\ no_overlap l.
Proof.
  destruct (playback_never_overlaps
              [OnMessage the_session 5 (audio_chunk silence);
               OnAudioProcess [Fin 0];
               OnMessage the_session 2 (audio_chunk silence)] live eq_refl)
    as (l & Hl & Hno & _).
  exists l. split; [exact Hl|exact Hno].
Defined.
End Reachable.

Section Conversation.
Local Open Scope Q_scope.

(** X17. When the audio of a message cannot be decoded, the handler
    stops at the exception: it starts no source and leaves the active set
    alone, but it has already moved the cursor up to the clock; and it
    never reaches the interruption signal the same message may carry, so
    nothing is stopped and the cursor is not reset. *)
Theorem onmessage_decode_failure (session : LiveSession) (currentTime : Q)
    (message : LiveServerMessage) (st : Panel) (ctx : AudioContext) (e : exn) :
  outputAudioContextRef st = Some ctx ->
  chunk_result message = Some (Throw e) ->
  exists st',
    onmessage session currentTime message st = (st', Some e)
    /\ calls st' = calls st
    /\ audioSourcesRef st' = audioSourcesRef st
    /\ nextStartTimeRef st' = Math_max (nextStartTimeRef st) currentTime.
Proof.
  intros Hctx Hchunk. rewrite onmessage_stages.
  destruct (transcribe_playback session message st) as (_ & Tc & Ts & Tn & To & _).
  unfold chunk_result in Hchunk. unfold schedule. rewrite To, Hctx.
  destruct (audioData message) as [data|]; [|discriminate].
  destruct (String.eqb data EmptyString); [discriminate|].
  destruct (bytes ← decode data; decodeAudioData bytes 24000 1) as [buffer|e'];
    [discriminate|].
  inversion Hchunk; subst e'.
  eexists. split; [reflexivity|].
  cbn [calls audioSourcesRef nextStartTimeRef set_nextStartTimeRef].
  rewrite Tc, Ts, Tn. repeat split; reflexivity.
Qed.

Lemma onmessage_decode_failure_witness :
  let message :=
    {| inputTranscription := None; outputTranscription := None; turnComplete := false;
       audioData := Some "!"; interrupted := true |} in
  exists st',
    onmessage the_session 5 message live = (st', Some InvalidCharacterError)
    /\ calls st' = calls live
    /\ audioSourcesRef st' = audioSourcesRef live
    /\ nextStartTimeRef st' = Math_max (nextStartTimeRef live) 5.
Proof.
  intros message.
  apply (onmessage_decode_failure the_session 5 message live
           {| ctx_id := 2; ctx_sampleRate := 24000 |} InvalidCharacterError);
    reflexivity.
Defined.

(** X18. With a session in place, one captured frame is sent as one chunk
    of type audio/pcm;rate=16000 whose text decodes to the 16-bit samples
    of the frame, two bytes each; nothing else of the panel changes. *)
Theorem onaudioprocess_sends (inputData : list number) (session : LiveSession) (st : Panel) :
  sessionPromiseRef st = Some session ->
  exists data,
    onaudioprocess inputData st
    = perform (SendRealtimeInput (session_id session) data "audio/pcm;rate=16000") st
    /\ decode data = Normal (floatToInt16 inputData)
    /\ length (floatToInt16 inputData) = (2 * length inputData)%nat.
Proof.
  intros Hsession. exists (encode (floatToInt16 inputData)).
  unfold onaudioprocess. rewrite Hsession.
  split; [reflexivity|]. split; [apply decode_encode_bytes|].
  unfold floatToInt16, Int16Array_of_numbers.
  rewrite length_Int16Array_bytes, !length_map. reflexivity.
Qed.

Lemma onaudioprocess_sends_witness :
  exists data,
    onaudioprocess [Fin (1 # 2); Fin 0] live
    = perform (SendRealtimeInput 3 data "audio/pcm;rate=16000") live
    /\ decode data = Normal (floatToInt16 [Fin (1 # 2); Fin 0])
    /\ length (floatToInt16 [Fin (1 # 2); Fin 0]) = 4%nat.
Proof.
  apply (onaudioprocess_sends [Fin (1 # 2); Fin 0] the_session live). reflexivity.
Defined.

(** X19. Once the conversation is stopped, by the button, by an error or
    by the closing of the session, a frame the capture node still delivers
    is dropped: nothing is sent and the panel does not change. *)
Theorem onaudioprocess_after_stop (inputData : list number) (st : Panel) :
  onaudioprocess inputData (stopConversation st) = stopConversation st
  /\ onaudioprocess inputData (onerror st) = onerror st
  /\ onaudioprocess inputData (onclose st) = onclose st.
Proof.
  unfold onerror, onclose. rewrite !stopConversation_result.
  repeat split; reflexivity.
Qed.

(** X20. A start that is refused the microphone leaves the panel idle,
    with the message about the permission, the transcript already erased,
    and no stream, context or session created; so the next click is not
    ignored: it asks for the microphone again and, if granted, connects. *)
Theorem startConversation_denied (st : Panel) :
  isLive st = false ->
  let st1 := startConversation false st in
  let st2 := startConversation true st1 in
  isLive st1 = false
  /\ error st1
     = Some "Could not access microphone. Please grant permission and try again."%string
  /\ transcription st1 = [] /\ currentTurn st1 = emptyTurn
  /\ calls st1 = calls st ++ [GetUserMedia]
  /\ fresh st1 = fresh st
  /\ sessionPromiseRef st1 = sessionPromiseRef st
  /\ isLive st2 = true /\ error st2 = None
  /\ calls st2 = calls st ++ [GetUserMedia; GetUserMedia; Connect (3 + fresh st)].
Proof.
  intros Hidle. cbv zeta. unfold startConversation. rewrite Hidle.
  cbn. rewrite <- !app_assoc.
  repeat match goal with |- _ /\ _ => split end; reflexivity.
Qed.

Lemma startConversation_denied_witness :
  isLive (startConversation false initial) = false
  /\ calls (startConversation true (startConversation false initial))
     = [GetUserMedia; GetUserMedia; Connect 3].
Proof.
  destruct (startConversation_denied initial eq_refl)
    as (H1 & _ & _ & _ & _ & _ & _ & _ & _ & H2).
  split; [exact H1|exact H2].
Defined.

Lemma startConversation_granted (st : Panel) :
  isLive st = false ->
  let st' := startConversation true st in
  outputAudioContextRef st'
  = Some {| ctx_id := 2 + fresh st; ctx_sampleRate := 24000 |}
  /\ nextStartTimeRef st' = 0
  /\ scheduled (calls st') = scheduled (calls st).
Proof.
  intros Hidle. cbv zeta. unfold startConversation. rewrite Hidle. cbn.
  repeat split. rewrite !scheduled_app. cbn. rewrite !app_nil_r. reflexivity.
Qed.

(** X21. A new conversation starts its schedule afresh: wherever the
    cursor of the conversation before was left, the first chunk received
    after a start is played at the clock reading of its arrival. *)
Theorem first_chunk_after_start (session : LiveSession) (currentTime : Q)
    (message : LiveServerMessage) (buffer : AudioBuffer) (st : Panel) :
  isLive st = false ->
  decoded_chunk message = Some buffer ->
  interrupted message = false ->
  0 <= currentTime ->
  scheduled (calls (fst (onmessage session currentTime message (startConversation true st))))
  = scheduled (calls st) ++ [(currentTime, duration buffer)].
Proof.
  intros Hidle Hchunk Hint Htime.
  destruct (startConversation_granted st Hidle) as (Hctx & Hcur & Hsched).
  destruct (onmessage_schedules session currentTime message _ _ buffer Hctx Hchunk Hint)
    as (st' & -> & Hcalls & _).
  cbn [fst]. rewrite Hcalls, scheduled_app, Hsched, Hcur. cbn [scheduled].
  rewrite (Math_max_r 0 currentTime Htime). reflexivity.
Qed.

Lemma first_chunk_after_start_witness :
  scheduled
    (calls (fst (onmessage the_session 7 (audio_chunk silence)
                   (startConversation true (stopConversation live)))))
  = scheduled (calls (stopConversation live)) ++ [(7, duration silence_buffer)].
Proof.
  apply (first_chunk_after_start the_session 7 (audio_chunk silence) silence_buffer
           (stopConversation live)).
  - reflexivity.
  - exact silence_decodes.
  - reflexivity.
  - vm_compute. discriminate.
Defined.

Lemma string_app_assoc (a b c : string) : ((a ++ b) ++ c = a ++ (b ++ c))%string.
Proof.
  induction a as [|x a IH]; [reflexivity|].
  change (String x ((a ++ b) ++ c) = String x (a ++ (b ++ c)))%string.
  f_equal. exact IH.
Qed.

Lemma string_app_nil_r (a : string) : (a ++ EmptyString = a)%string.
Proof.
  induction a as [|x a IH]; [reflexivity|].
  change (String x (a ++ EmptyString) = String x a)%string.
  f_equal. exact IH.
Qed.

Lemma concat_cons (x : string) (xs : list string) :
  String.concat EmptyString (x :: xs) = (x ++ String.concat EmptyString xs)%string.
Proof.
  destruct xs as [|y ys]; [symmetry; apply string_app_nil_r|reflexivity].
Qed.

(** X22. The fragments of the user's speech, one message each, are
    appended to the accumulator in the order of arrival; the model's side
    of the accumulator, the log and the audio output are left alone. *)
Theorem user_fragments_accumulate (session : LiveSession) (currentTime : Q)
    (texts : list string) (st : Panel) :
  let st' := run (user_fragments session currentTime texts) st in
  currentTurn st'
  = {| user := user (currentTurn st) ++ String.concat EmptyString texts;
       model := model (currentTurn st) |}
  /\ transcription st' = transcription st
  /\ calls st' = calls st.
Proof.
  cbv zeta. revert st. induction texts as [|text texts IH]; intros st.
  - cbn. rewrite string_app_nil_r. destruct (currentTurn st). repeat split; reflexivity.
  - change (run (user_fragments session currentTime (text :: texts)) st)
      with (run (user_fragments session currentTime texts)
              (handle st (OnMessage session currentTime (user_says text)))).
    destruct (IH (handle st (OnMessage session currentTime (user_says text))))
      as (-> & -> & ->).
    change (handle st (OnMessage session currentTime (user_says text)))
      with (setCurrentTurn
              (fun prev => {| user := user prev ++ text; model := model prev |}) st).
    cbn [currentTurn transcription calls setCurrentTurn user model].
    rewrite concat_cons, <- string_app_assoc. repeat split; reflexivity.
Qed.

Lemma onmessage_transcription (session : LiveSession) (currentTime : Q)
    (message : LiveServerMessage) (st : Panel) :
  transcription (fst (onmessage session currentTime message st))
  = transcription st ++ (if turnComplete message then [closure_currentTurn session] else []).
Proof.
  unfold onmessage.
  transcript_cases message;
    cbn -[decode decodeAudioData Math_max Qplus Set_add String.eqb stopAll];
    (destruct (audioData message) as [data|];
     [destruct (outputAudioContextRef st);
      [destruct (String.eqb data EmptyString);
       [|destruct (bytes ← decode data; decodeAudioData bytes 24000 1)]|]|]);
    cbn -[decode decodeAudioData Math_max Qplus Set_add String.eqb stopAll];
    destruct (interrupted message);
    cbn -[decode decodeAudioData Math_max Qplus Set_add String.eqb stopAll];
    unfold stopAll; rewrite ?stop_each; rewrite ?app_nil_r; reflexivity.
Qed.

(** X23. Every record a session adds to the log is the turn its handler
    captured when the session was created: after any messages of the
    session, at any clock readings, the log has grown by as many copies of
    that one turn as there were turn-complete signals, whatever was said in
    between. *)
Theorem log_repeats_closure_turn (session : LiveSession)
    (messages : list (Q * LiveServerMessage)) (st : Panel) :
  transcription (run (map (fun m => OnMessage session (fst m) (snd m)) messages) st)
  = transcription st
    ++ replicate (turns_completed (map snd messages)) (closure_currentTurn session).
Proof.
  revert st. induction messages as [|[t message] messages IH]; intros st.
  - cbn. rewrite app_nil_r. reflexivity.
  - change (run (map (fun m => OnMessage session (fst m) (snd m)) ((t, message) :: messages)) st)
      with (run (map (fun m => OnMessage session (fst m) (snd m)) messages)
              (fst (onmessage session t message st))).
    rewrite IH, onmessage_transcription, <- app_assoc. f_equal.
    unfold turns_completed. cbn [map snd List.filter].
    destruct (turnComplete message); reflexivity.
Qed.
End Conversation.

(** ** The chat panel *)

Section Chat.

Lemma replace_last_snoc (m x : ChatPanel.ChatMessage) (prefix : list ChatPanel.ChatMessage) :
  ChatPanel.replace_last m (prefix ++ [x]) = prefix ++ [m].
Proof.
  unfold ChatPanel.replace_last.
  destruct (prefix ++ [x]) as [|y r] eqn:E; [destruct prefix; discriminate|].
  rewrite <- E. rewrite length_app. cbn [length].
  replace (length prefix + 1 - 1)%nat with (length prefix + 0)%nat by lia.
  rewrite insert_app_r. reflexivity.
Qed.

(** The loop over the chunks of a stream keeps one message, the last, and
    grows its text. *)
Lemma stream_loop (chunks : list string) (current : string) (st : ChatPanel.Panel)
    (prefix : list ChatPanel.ChatMessage) :
  ChatPanel.messages st
  = prefix ++ [{| ChatPanel.role := ChatPanel.Model; ChatPanel.content := current |}] ->
  snd (fold_left ChatPanel.on_chunk chunks (current, st))
  = ChatPanel.setMessages
      (fun _ => prefix ++ [{| ChatPanel.role := ChatPanel.Model;
                              ChatPanel.content :=
                                (current ++ String.concat EmptyString chunks)%string |}])
      st.
Proof.
  revert current st. induction chunks as [|chunk chunks IH]; intros current st Hst.
  - cbn. rewrite string_app_nil_r. destruct st. cbn in Hst. subst. reflexivity.
  - cbn [fold_left]. unfold ChatPanel.on_chunk at 2. cbn [fst snd].
    rewrite (IH _ _ ).
    + rewrite concat_cons, string_app_assoc. reflexivity.
    + cbn. rewrite Hst. apply replace_last_snoc.
Qed.

(** X24. A message sent in streaming mode ends as two entries at the end
    of the list: what the user typed, and one reply that holds the texts of
    all the chunks in order, however many there were; if the stream breaks
    off, the part of the reply received so far stays and the apology
    follows it.  The input field is emptied and the loading flag is down. *)
Theorem handleSend_stream (api : ChatPanel.Service) (st : ChatPanel.Panel)
    (chunks : list string) (completes : bool) :
  blank (ChatPanel.input st) = false ->
  ChatPanel.isLoading st = false ->
  ChatPanel.isThinkingMode st = false ->
  ChatPanel.chatRef st = true ->
  ChatPanel.sendMessageStream api = Some (chunks, completes) ->
  ChatPanel.handleSend api st
  = {| ChatPanel.messages :=
         ChatPanel.messages st
         ++ [{| ChatPanel.role := ChatPanel.User; ChatPanel.content := ChatPanel.input st |};
             {| ChatPanel.role := ChatPanel.Model;
                ChatPanel.content := String.concat EmptyString chunks |}]
         ++ (if completes then [] else [ChatPanel.apology]);
       ChatPanel.input := EmptyString;
       ChatPanel.isLoading := false;
       ChatPanel.isThinkingMode := false;
       ChatPanel.chatRef := true |}.
Proof.
  intros Htext Hidle Hmode Hchat Hstream. unfold ChatPanel.handleSend.
  rewrite Htext, Hidle, Hmode, Hstream. cbn [orb].
  cbn [ChatPanel.chatRef ChatPanel.setIsLoading ChatPanel.setInput ChatPanel.setMessages].
  rewrite Hchat. cbn [negb].
  rewrite (stream_loop chunks EmptyString _
             (ChatPanel.messages st
              ++ [{| ChatPanel.role := ChatPanel.User;
                     ChatPanel.content := ChatPanel.input st |}])) by reflexivity.
  unfold ChatPanel.setIsLoading, ChatPanel.setMessages, ChatPanel.setInput.
  destruct completes; cbn; rewrite Hmode, Hchat, <- ?app_assoc; reflexivity.
Qed.

Lemma handleSend_stream_witness :
  ChatPanel.messages
    (ChatPanel.handleSend
       {| ChatPanel.generateContent := None;
          ChatPanel.sendMessageStream := Some (["Hel"; "lo"; "!"], false) |}
       {| ChatPanel.messages := []; ChatPanel.input := "hi"; ChatPanel.isLoading := false;
          ChatPanel.isThinkingMode := false; ChatPanel.chatRef := true |})
  = [{| ChatPanel.role := ChatPanel.User; ChatPanel.content := "hi" |};
     {| ChatPanel.role := ChatPanel.Model; ChatPanel.content := "Hello!" |};
     ChatPanel.apology].
Proof.
  rewrite (handleSend_stream _ _ ["Hel"; "lo"; "!"] false); reflexivity.
Defined.

(** X25. A message that is sent is always answered in the list: whatever
    the mode, the state of the chat and the behaviour of the service, the
    list grows by the user's message followed by one or two entries of the
    model (the reply, the apology, or a partial reply and the apology);
    nothing that was in the list is changed, and the loading flag is down
    at the end. *)
Theorem handleSend_answers (api : ChatPanel.Service) (st : ChatPanel.Panel) :
  blank (ChatPanel.input st) = false ->
  ChatPanel.isLoading st = false ->
  exists reply,
    ChatPanel.messages (ChatPanel.handleSend api st)
    = ChatPanel.messages st
      ++ {| ChatPanel.role := ChatPanel.User; ChatPanel.content := ChatPanel.input st |}
         :: reply
    /\ (1 <= length reply <= 2)%nat
    /\ Forall (fun m => ChatPanel.role m = ChatPanel.Model) reply
    /\ ChatPanel.isLoading (ChatPanel.handleSend api st) = false
    /\ ChatPanel.input (ChatPanel.handleSend api st) = EmptyString.
Proof.
  intros Htext Hidle. unfold ChatPanel.handleSend. rewrite Htext, Hidle. cbn [orb].
  cbn [ChatPanel.chatRef ChatPanel.setIsLoading ChatPanel.setInput ChatPanel.setMessages].
  destruct (ChatPanel.isThinkingMode st).
  - destruct (ChatPanel.generateContent api) as [text|]; cbn;
      eexists; (split; [rewrite <- app_assoc; reflexivity|]);
      (split; [cbn; lia|]); (split; [repeat constructor|split; reflexivity]).
  - destruct (ChatPanel.chatRef st); cbn [negb].
    + destruct (ChatPanel.sendMessageStream api) as [[chunks completes]|].
      * rewrite (stream_loop chunks EmptyString _
                   (ChatPanel.messages st
                    ++ [{| ChatPanel.role := ChatPanel.User;
                           ChatPanel.content := ChatPanel.input st |}])) by reflexivity.
        destruct completes; cbn;
          eexists; (split; [rewrite <- ?app_assoc; reflexivity|]);
          (split; [cbn; lia|]); (split; [repeat constructor|split; reflexivity]).
      * cbn. eexists; (split; [rewrite <- app_assoc; reflexivity|]);
          (split; [cbn; lia|]); (split; [repeat constructor|split; reflexivity]).
    + cbn. eexists; (split; [rewrite <- app_assoc; reflexivity|]);
        (split; [cbn; lia|]); (split; [repeat constructor|split; reflexivity]).
Qed.

Lemma handleSend_answers_witness :
  exists reply,
    ChatPanel.messages
      (ChatPanel.handleSend
         {| ChatPanel.generateContent := None; ChatPanel.sendMessageStream := None |}
         {| ChatPanel.messages := []; ChatPanel.input := "hi"; ChatPanel.isLoading := false;
            ChatPanel.isThinkingMode := true; ChatPanel.chatRef := false |})
    = {| ChatPanel.role := ChatPanel.User; ChatPanel.content := "hi" |} :: reply
    /\ (1 <= length reply <= 2)%nat.
Proof.
  destruct (handleSend_answers
              {| ChatPanel.generateContent := None; ChatPanel.sendMessageStream := None |}
              {| ChatPanel.messages := []; ChatPanel.input := "hi";
                 ChatPanel.isLoading := false; ChatPanel.isThinkingMode := true;
                 ChatPanel.chatRef := false |} eq_refl eq_refl)
    as (reply & Hm & Hl & _).
  exists reply. split; [exact Hm|exact Hl].
Defined.
End Chat.
